(** * ignite.handlers.param_scheduler: parameter schedules

    A shallow embedding of [ignite/handlers/param_scheduler.py] and the
    properties of its schedulers.

    Numbers.  The calls, the counters and the stores are modelled over
    exact numbers: every number a caller passes in (start and end value,
    cycle size, cycle multiplier) is a rational [Q]; the event counter
    is an integer [Z]; the value a scheduler writes is a real [R],
    because two of the waveforms go through [cos].  On integers this is
    what Python computes.  What [get_param] computes in Python's own
    arithmetic, [int]s of any size and binary64 [float]s with their
    rounding, infinities and NaN, is modelled in the module [Binary64]
    below, and the statements about the computed values are made there.

    Objects.  A scheduler is a mutable object: a call changes it in
    place, and the change stays when the call raises.  A call is
    therefore a state transformer that returns an outcome (a result or
    an exception) together with the state it leaves behind.  The
    optimizers, the keyword dictionaries of a [ConcatScheduler] and the
    engine state are shared with the caller and live in a store
    ([world]); the scheduler refers to them by address. *)

From Stdlib Require Import Floats.
From Stdlib Require Import ZArith QArith Qabs Qround Qpower Qreals Reals Lra Lia.
From stdpp Require Import base gmap list strings fin_maps.

Local Open Scope Z_scope.

(** ** Exceptions and the state-and-exception monad *)

Inductive exn : Set :=
  | NotImplementedError
  | ZeroDivisionError
  | IndexError
  | TypeError
  | KeyError
  | AttributeError
  | OverflowError.

Inductive outcome (A : Type) : Type :=
  | Return (a : A)
  | Raise (e : exn).
Arguments Return {A} a.
Arguments Raise {A} e.

(** A computation over a mutable state [S]: the state is returned also
    when the computation raises. *)
Definition Py (S A : Type) : Type := S -> outcome A * S.

Definition ret {S A} (a : A) : Py S A := fun s => (Return a, s).
Definition raise {S A} (e : exn) : Py S A := fun s => (Raise e, s).
Definition bind {S A B} (m : Py S A) (k : A -> Py S B) : Py S B :=
  fun s => match m s with
           | (Return a, s') => k a s'
           | (Raise e, s') => (Raise e, s')
           end.
Definition modify {S} (f : S -> S) : Py S unit := fun s => (Return tt, f s).
(** A computation that only reads: [lift_outcome o] returns or raises as
    [o] does and leaves the state alone. *)
Definition lift_outcome {S A} (o : outcome A) : Py S A := fun s => (o, s).

Declare Scope py_scope.
Delimit Scope py_scope with py.
Notation "x <- m ;; k" := (bind m (fun x => k))
  (at level 100, m at next level, right associativity) : py_scope.
Notation "m ;;; k" := (bind m (fun _ => k))
  (at level 100, right associativity) : py_scope.


Definition obind {A B} (o : outcome A) (k : A -> outcome B) : outcome B :=
  match o with
  | Return a => k a
  | Raise e => Raise e
  end.

(** ** Python arithmetic on idealised numbers *)

(** [a % b]: the result has the sign of the divisor; a zero divisor
    raises. *)
Definition py_mod (a b : Q) : outcome Q :=
  if Qeq_bool b 0 then Raise ZeroDivisionError
  else Return (a - inject_Z (Qfloor (a / b)) * b)%Q.

(** [a / b] under [from __future__ import division]. *)
Definition py_truediv (a b : Q) : outcome Q :=
  if Qeq_bool b 0 then Raise ZeroDivisionError
  else Return (a / b)%Q.

(** ** The store shared with the caller *)

(** A Python value as it can appear in a keyword dictionary. *)
Inductive pyval : Type :=
  | VNone
  | VBool (b : bool)
  | VNum (q : Q)
  | VStr (s : string)
  | VOptimizer (id : nat).

(** [optimizer.param_groups]: a list of dictionaries from option name to
    value, one list for each optimizer object. *)
Record world : Type := mk_world {
  optimizers : gmap nat (list (gmap string R));
  (** the dictionary objects, by address *)
  dicts : list (gmap string pyval);
  (** [engine.state.param_history]; [None] while the attribute is not set *)
  param_history : option (gmap string (list (list R)))
}.

Definition set_optimizers (f : gmap nat (list (gmap string R)) ->
                               gmap nat (list (gmap string R))) (w : world) : world :=
  mk_world (f (optimizers w)) (dicts w) (param_history w).
Definition set_dicts (f : list (gmap string pyval) -> list (gmap string pyval))
    (w : world) : world :=
  mk_world (optimizers w) (f (dicts w)) (param_history w).
Definition set_param_history (h : option (gmap string (list (list R)))) (w : world) : world :=
  mk_world (optimizers w) (dicts w) h.

(** ** ParamScheduler and CyclicalScheduler objects *)

Record ParamScheduler : Type := mk_ParamScheduler {
  optimizer : nat;
  param_name : string;
  save_history : bool;
  event_index : Z
}.

Record CyclicalScheduler : Type := mk_CyclicalScheduler {
  base : ParamScheduler;
  start_value : Q;
  end_value : Q;
  cycle_size : Q;
  cycle_mult : Q;
  cycle : Z
}.

(** The classes of the module that the model instantiates. *)
Inductive cyclical_cls : Set :=
  | CyclicalScheduler_cls
  | LinearScheduler_cls
  | CosineAnnealingScheduler_cls
  | CosineScheduler_cls.

Inductive scheduler_cls : Set :=
  | ParamScheduler_cls
  | Cyclical_cls (c : cyclical_cls).

(** An instance: its class and its attributes. *)
Inductive scheduler : Type :=
  | ParamScheduler_obj (p : ParamScheduler)
  | Cyclical_obj (c : cyclical_cls) (s : CyclicalScheduler).

(** [ParamScheduler.__init__] *)
Definition ParamScheduler_init (optimizer : nat) (param_name : string)
    (save_history : bool) : ParamScheduler :=
  mk_ParamScheduler optimizer param_name save_history 0.

(** [CyclicalScheduler.__init__] *)
Definition CyclicalScheduler_init (optimizer : nat) (param_name : string)
    (start_value end_value cycle_size cycle_mult : Q) (save_history : bool)
    : CyclicalScheduler :=
  mk_CyclicalScheduler (ParamScheduler_init optimizer param_name save_history)
    start_value end_value cycle_size cycle_mult 0.

Definition self_base (s : scheduler) : ParamScheduler :=
  match s with
  | ParamScheduler_obj p => p
  | Cyclical_obj _ c => base c
  end.

Definition set_event_index (i : Z) (p : ParamScheduler) : ParamScheduler :=
  mk_ParamScheduler (optimizer p) (param_name p) (save_history p) i.

Definition set_base (f : ParamScheduler -> ParamScheduler) (s : scheduler) : scheduler :=
  match s with
  | ParamScheduler_obj p => ParamScheduler_obj (f p)
  | Cyclical_obj k c =>
      Cyclical_obj k (mk_CyclicalScheduler (f (base c)) (start_value c) (end_value c)
                        (cycle_size c) (cycle_mult c) (cycle c))
  end.

(** ** get_param *)

(** The three waveforms over exact numbers, for the calls and the stores
    below: with integer cycle sizes, when a call returns and when it
    raises, and what it leaves behind, do not depend on rounding.  The values themselves, as Python
    computes them in binary64, are those of [Binary64.get_param]. *)

(** [cycle_progress = self.event_index / self.cycle_size] *)
Definition cycle_progress (c : CyclicalScheduler) : outcome Q :=
  py_truediv (inject_Z (event_index (base c))) (cycle_size c).

(** [LinearScheduler.get_param] *)
Definition LinearScheduler_get_param (c : CyclicalScheduler) : outcome R :=
  obind (cycle_progress c) (fun p =>
    Return (Q2R (end_value c + (start_value c - end_value c) * Qabs (p - 0.5) * 2)%Q)).

(** [CosineAnnealingScheduler.get_param] *)
Definition CosineAnnealingScheduler_get_param (c : CyclicalScheduler) : outcome R :=
  obind (cycle_progress c) (fun p =>
    Return (Q2R (start_value c)
            + Q2R ((end_value c - start_value c) / 2)%Q * (1 - cos (PI * Q2R p)))%R).

(** [CosineScheduler.get_param] *)
Definition CosineScheduler_get_param (c : CyclicalScheduler) : outcome R :=
  obind (cycle_progress c) (fun p =>
    Return (Q2R (start_value c)
            + Q2R ((end_value c - start_value c) / 2)%Q * (1 - cos (2 * PI * Q2R p)))%R).

(** Method dispatch: [ParamScheduler.get_param] raises, and
    [CyclicalScheduler] does not override it. *)
Definition get_param (s : scheduler) : outcome R :=
  match s with
  | ParamScheduler_obj _ => Raise NotImplementedError
  | Cyclical_obj CyclicalScheduler_cls _ => Raise NotImplementedError
  | Cyclical_obj LinearScheduler_cls c => LinearScheduler_get_param c
  | Cyclical_obj CosineAnnealingScheduler_cls c => CosineAnnealingScheduler_get_param c
  | Cyclical_obj CosineScheduler_cls c => CosineScheduler_get_param c
  end.

(** ** ParamScheduler.__call__ *)

(** The state of a call: the scheduler object and the store. *)
Definition sched_state : Type := scheduler * world.

Definition read_self {X} : Py (X * world) X := fun s => (Return (fst s), s).
Definition update_self {X} (f : X -> X) : Py (X * world) unit :=
  modify (fun s => (f (fst s), snd s)).
Definition update_world {X} (f : world -> world) : Py (X * world) unit :=
  modify (fun s => (fst s, f (snd s))).

(** [optimizer.param_groups]; an object without the attribute raises. *)
Definition read_param_groups {X} (id : nat) : Py (X * world) (list (gmap string R)) :=
  fun s => match optimizers (snd s) !! id with
           | Some groups => (Return groups, s)
           | None => (Raise AttributeError, s)
           end.

(** [[pg[name] for pg in groups]] *)
Fixpoint collect_values (name : string) (groups : list (gmap string R)) : outcome (list R) :=
  match groups with
  | [] => Return []
  | pg :: rest =>
      match pg !! name with
      | None => Raise KeyError
      | Some v => obind (collect_values name rest) (fun vs => Return (v :: vs))
      end
  end.

(** The [save_history] block of [ParamScheduler.__call__]. *)
Definition record_history {X} (id : nat) (name : string) : Py (X * world) unit :=
  (update_world (fun w =>
     match param_history w with
     | None => set_param_history (Some ∅) w          (* setattr(..., {}) *)
     | Some _ => w
     end) ;;;
   update_world (fun w =>                              (* setdefault(name, []) *)
     match param_history w with
     | Some h => match h !! name with
                 | None => set_param_history (Some (<[name := []]> h)) w
                 | Some _ => w
                 end
     | None => w
     end) ;;;
   groups <- read_param_groups id ;;
   values <- lift_outcome (collect_values name groups) ;;
   (fun s =>                                           (* param_history[name].append(values) *)
      match param_history (snd s) with
      | None => (Raise AttributeError, s)
      | Some h =>
          match h !! name with
          | None => (Raise KeyError, s)
          | Some l => (Return tt, (fst s, set_param_history
                                            (Some (<[name := l ++ [values]]> h)) (snd s)))
          end
      end))%py.

Definition ParamScheduler_call : Py sched_state unit :=
  (self <- read_self ;;
   value <- lift_outcome (get_param self) ;;
   groups <- read_param_groups (optimizer (self_base self)) ;;
   update_world (set_optimizers
     <[optimizer (self_base self) :=
         (fun pg => <[param_name (self_base self) := value]> pg) <$> groups]>) ;;;
   (if save_history (self_base self)
    then record_history (optimizer (self_base self)) (param_name (self_base self))
    else ret tt) ;;;
   update_self (set_base (fun p => set_event_index (event_index p + 1) p)))%py.

(** ** CyclicalScheduler.__call__ *)

(** The body of the [if]: [event_index = 0], [cycle_size *= cycle_mult],
    [cycle += 1]. *)
Definition cycle_reset (c : CyclicalScheduler) : CyclicalScheduler :=
  mk_CyclicalScheduler (set_event_index 0 (base c)) (start_value c) (end_value c)
    (cycle_size c * cycle_mult c)%Q (cycle_mult c) (cycle c + 1).

(** The cycle-boundary block: [and] does not evaluate the modulo when
    [event_index] is 0. *)
Definition cycle_boundary (c : CyclicalScheduler) : outcome CyclicalScheduler :=
  if Z.eqb (event_index (base c)) 0 then Return c
  else
    obind (py_mod (inject_Z (event_index (base c))) (cycle_size c)) (fun m =>
      if Qeq_bool m 0 then Return (cycle_reset c) else Return c).

Definition CyclicalScheduler_call (k : cyclical_cls) (c : CyclicalScheduler)
    : Py sched_state unit :=
  (c' <- lift_outcome (cycle_boundary c) ;;
   update_self (fun _ => Cyclical_obj k c') ;;;
   ParamScheduler_call)%py.

(** [scheduler(engine)]: the [__call__] of the object's class. *)
Definition scheduler_call : Py sched_state unit :=
  (self <- read_self ;;
   match self with
   | ParamScheduler_obj _ => ParamScheduler_call
   | Cyclical_obj k c => CyclicalScheduler_call k c
   end)%py.

(** ** ConcatScheduler *)

(** An entry of [schedulers_list]: the class, the address of the keyword
    dictionary, and the duration in events ([None] for Python's [None]). *)
Definition entry : Type := scheduler_cls * nat * option Z.

Record ConcatScheduler : Type := mk_ConcatScheduler {
  concat_base : ParamScheduler;
  _schedulers_list : list entry;
  _schedulers_index : nat;
  _next_scheduler_switch : option Z;
  (** [None] while the attribute [_scheduler] is not set *)
  _scheduler : option scheduler
}.

(** [ConcatScheduler.__init__] *)
Definition ConcatScheduler_init (optimizer : nat) (param_name : string)
    (schedulers_list : list entry) (save_history : bool) : ConcatScheduler :=
  mk_ConcatScheduler (ParamScheduler_init optimizer param_name save_history)
    schedulers_list 0%nat (Some 0) None.

Definition concat_state : Type := ConcatScheduler * world.

(** *** Calling a class with keyword arguments *)

Definition ParamScheduler_params : gset string :=
  {[ "optimizer"; "param_name"; "save_history" ]}.
Definition CyclicalScheduler_params : gset string :=
  {[ "optimizer"; "param_name"; "start_value"; "end_value"; "cycle_size";
     "cycle_mult"; "save_history" ]}.

(** A required argument: missing raises [TypeError]. *)
Definition kw_required (kwds : gmap string pyval) (k : string) : outcome pyval :=
  match kwds !! k with
  | Some v => Return v
  | None => Raise TypeError
  end.

Definition as_optimizer (v : pyval) : outcome nat :=
  match v with VOptimizer id => Return id | _ => Raise TypeError end.
Definition as_str (v : pyval) : outcome string :=
  match v with VStr s => Return s | _ => Raise TypeError end.
Definition as_bool (v : pyval) : outcome bool :=
  match v with VBool b => Return b | _ => Raise TypeError end.
Definition as_num (v : pyval) : outcome Q :=
  match v with VNum q => Return q | _ => Raise TypeError end.

(** [ParamScheduler] called with the items of [kwds] as keyword
    arguments.  The model keeps attributes typed, so an
    argument of another type is refused here, where Python stores it and
    fails at its first use. *)
Definition ParamScheduler_new (kwds : gmap string pyval) : outcome ParamScheduler :=
  if bool_decide (dom kwds ⊆ ParamScheduler_params) then
    obind (obind (kw_required kwds "optimizer") as_optimizer) (fun o =>
    obind (obind (kw_required kwds "param_name") as_str) (fun n =>
    obind (as_bool (default (VBool false) (kwds !! "save_history"))) (fun h =>
    Return (ParamScheduler_init o n h))))
  else Raise TypeError.

(** [CyclicalScheduler] and its subclasses, which take the same
    arguments, called with the items of [kwds] as keyword arguments. *)
Definition CyclicalScheduler_new (kwds : gmap string pyval) : outcome CyclicalScheduler :=
  if bool_decide (dom kwds ⊆ CyclicalScheduler_params) then
    obind (obind (kw_required kwds "optimizer") as_optimizer) (fun o =>
    obind (obind (kw_required kwds "param_name") as_str) (fun n =>
    obind (obind (kw_required kwds "start_value") as_num) (fun sv =>
    obind (obind (kw_required kwds "end_value") as_num) (fun ev =>
    obind (obind (kw_required kwds "cycle_size") as_num) (fun cs =>
    obind (as_num (default (VNum 1) (kwds !! "cycle_mult"))) (fun cm =>
    obind (as_bool (default (VBool false) (kwds !! "save_history"))) (fun h =>
    Return (CyclicalScheduler_init o n sv ev cs cm h))))))))
  else Raise TypeError.

(** [scheduler_cls] called with [kwds] as keyword arguments. *)
Definition scheduler_new (cls : scheduler_cls) (kwds : gmap string pyval) : outcome scheduler :=
  match cls with
  | ParamScheduler_cls => obind (ParamScheduler_new kwds) (fun p => Return (ParamScheduler_obj p))
  | Cyclical_cls k => obind (CyclicalScheduler_new kwds) (fun c => Return (Cyclical_obj k c))
  end.

(** *** _next_scheduler *)

(** [dict(optimizer=self.optimizer, param_name=self.param_name,
    save_history=self.save_history)] *)
Definition shared_kwds (p : ParamScheduler) : gmap string pyval :=
  {[ "optimizer" := VOptimizer (optimizer p);
     "param_name" := VStr (param_name p);
     "save_history" := VBool (save_history p) ]}.

(** [d.copy()]: a new dictionary object with the same items; its address
    is returned. *)
Definition dict_copy {X} (a : nat) : Py (X * world) nat :=
  fun s => match dicts (snd s) !! a with
           | None => (Raise AttributeError, s)
           | Some d => (Return (length (dicts (snd s))),
                        (fst s, set_dicts (fun ds => ds ++ [d]) (snd s)))
           end.

(** [d.update(other)]: the dictionary at address [a] is changed in
    place; the items of [other] win. *)
Definition dict_update {X} (a : nat) (other : gmap string pyval) : Py (X * world) unit :=
  fun s => match dicts (snd s) !! a with
           | None => (Raise AttributeError, s)
           | Some d => (Return tt, (fst s, set_dicts <[a := other ∪ d]> (snd s)))
           end.

Definition read_dict {X} (a : nat) : Py (X * world) (gmap string pyval) :=
  fun s => match dicts (snd s) !! a with
           | None => (Raise AttributeError, s)
           | Some d => (Return d, s)
           end.

Definition set_next_scheduler_switch (d : option Z) (c : ConcatScheduler) : ConcatScheduler :=
  mk_ConcatScheduler (concat_base c) (_schedulers_list c) (_schedulers_index c) d (_scheduler c).
Definition set_scheduler (s : option scheduler) (c : ConcatScheduler) : ConcatScheduler :=
  mk_ConcatScheduler (concat_base c) (_schedulers_list c) (_schedulers_index c)
    (_next_scheduler_switch c) s.
Definition set_schedulers_index (i : nat) (c : ConcatScheduler) : ConcatScheduler :=
  mk_ConcatScheduler (concat_base c) (_schedulers_list c) i
    (_next_scheduler_switch c) (_scheduler c).

Definition _next_scheduler : Py concat_state unit :=
  (self <- read_self ;;
   match _schedulers_list self !! _schedulers_index self with
   | None => raise IndexError
   | Some (scheduler_cls, scheduler_kwds, duration) =>
       (* the third target of the unpacking is the attribute itself *)
       update_self (set_next_scheduler_switch duration) ;;;
       kwds <- dict_copy scheduler_kwds ;;
       dict_update kwds (shared_kwds (concat_base self)) ;;;
       d <- read_dict kwds ;;
       sch <- lift_outcome (scheduler_new scheduler_cls d) ;;
       update_self (set_scheduler (Some sch)) ;;;
       update_self (set_schedulers_index
                      ((_schedulers_index self + 1) mod length (_schedulers_list self))%nat)
   end)%py.

(** *** ConcatScheduler.__call__ *)

(** [self._scheduler(engine)]: the call changes the sub-scheduler
    object in place, also when it raises. *)
Definition delegate : Py concat_state unit :=
  fun s =>
    match _scheduler (fst s) with
    | None => (Raise AttributeError, s)
    | Some sub =>
        match scheduler_call (sub, snd s) with
        | (o, (sub', w')) => (o, (set_scheduler (Some sub') (fst s), w'))
        end
    end.

Definition ConcatScheduler_call : Py concat_state unit :=
  (self <- read_self ;;
   match _next_scheduler_switch self with
   | None => ret tt
   | Some n =>
       update_self (set_next_scheduler_switch (Some (n - 1))) ;;;
       if n - 1 <? 0 then _next_scheduler else ret tt
   end ;;;
   delegate)%py.

(** ** The control loop *)

(** [n] events in a row: the loop calls the handler once for each, and
    an exception ends the run. *)
Fixpoint run {S} (m : Py S unit) (n : nat) : Py S unit :=
  match n with
  | O => ret tt
  | S n' => (run m n' ;;; m)%py
  end.

(** ** What a successful call leaves behind *)

(** The parameter groups after [value] was written under [name]. *)
Definition written (name : string) (value : R) (groups : list (gmap string R))
    : list (gmap string R) :=
  (fun pg => <[name := value]> pg) <$> groups.

(** The history after one more snapshot under [name]. *)
Definition history_after (name : string) (values : list R)
    (h : option (gmap string (list (list R)))) : option (gmap string (list (list R))) :=
  Some (<[name := default [] (default ∅ h !! name) ++ [values]]> (default ∅ h)).

Definition world_after (p : ParamScheduler) (value : R) (w : world) : world :=
  match optimizers w !! optimizer p with
  | None => w
  | Some groups =>
      let w1 := set_optimizers <[optimizer p := written (param_name p) value groups]> w in
      if save_history p
      then set_param_history
             (history_after (param_name p) (replicate (length groups) value) (param_history w)) w1
      else w1
  end.

(** [self.event_index += 1] *)
Definition advance (s : scheduler) : scheduler :=
  set_base (fun p => set_event_index (event_index p + 1) p) s.

(** The part of [__call__] that runs before the base class takes over. *)
Definition before_base (s : scheduler) : outcome scheduler :=
  match s with
  | ParamScheduler_obj p => Return s
  | Cyclical_obj k c => obind (cycle_boundary c) (fun c' => Return (Cyclical_obj k c'))
  end.

(** The scheduler's side of a call: the object it becomes and the value
    it computes. *)
Definition sched_step (s : scheduler) : outcome (scheduler * R) :=
  obind (before_base s) (fun s1 =>
  obind (get_param s1) (fun v => Return (advance s1, v))).

(** [n] calls seen from the scheduler alone. *)
Fixpoint sched_iter (n : nat) (s : scheduler) : outcome scheduler :=
  match n with
  | O => Return s
  | S n' => obind (sched_iter n' s) (fun s' => obind (sched_step s') (fun r => Return (fst r)))
  end.

(** The value computed by call number [n], counted from 0. *)
Definition sched_value (n : nat) (s : scheduler) : outcome R :=
  obind (sched_iter n s) (fun s' => obind (sched_step s') (fun r => Return (snd r))).

(** Every parameter group of optimizer [id] holds [v] under [name]. *)
Definition holds_value (w : world) (id : nat) (name : string) (v : R) : Prop :=
  exists groups, optimizers w !! id = Some groups /\
                 Forall (fun pg => pg !! name = Some v) groups.

(** The [name] option of every parameter group of optimizer [id]. *)
Definition read_option (w : world) (id : nat) (name : string) : option (list (option R)) :=
  match optimizers w !! id with
  | Some groups => Some (map (fun pg : gmap string R => pg !! name) groups)
  | None => None
  end.

(** The classes that define a waveform. *)
Definition has_waveform (k : cyclical_cls) : bool :=
  match k with
  | CyclicalScheduler_cls => false
  | _ => true
  end.

(** The rational that [LinearScheduler.get_param] computes, before it
    is read as a real. *)
Definition LinearScheduler_rational (c : CyclicalScheduler) : outcome Q :=
  obind (cycle_progress c) (fun p =>
    Return (end_value c + (start_value c - end_value c) * Qabs (p - 0.5) * 2)%Q).

(** The rational computed by call number [n] of a [LinearScheduler]. *)
Definition Linear_value (n : nat) (c : CyclicalScheduler) : outcome Q :=
  obind (sched_iter n (Cyclical_obj LinearScheduler_cls c)) (fun s =>
    match s with
    | Cyclical_obj LinearScheduler_cls c1 =>
        obind (cycle_boundary c1) LinearScheduler_rational
    | _ => Raise TypeError
    end).

(** *** The end-to-end example: one group [{"lr": 0.1}], a linear
    schedule from 0.1 to 0.01 over cycles of 10 events. *)
Definition example_world : world :=
  mk_world {[ 0%nat := [ {[ "lr" := 0.1%R ]} ] ]} [] None.

Definition example_scheduler : scheduler :=
  Cyclical_obj LinearScheduler_cls (CyclicalScheduler_init 0 "lr" 0.1 0.01 10 1 false).

(** The ["lr"] options of the groups after [n] calls. *)
Definition lr_after (n : nat) : option (list (option R)) :=
  match run scheduler_call n (example_scheduler, example_world) with
  | (Return _, (_, w)) => read_option w 0 "lr"
  | (Raise _, _) => None
  end.

(** The scheduler [c] with its event counter at [i]. *)
Definition at_event_index (i : Z) (c : CyclicalScheduler) : CyclicalScheduler :=
  mk_CyclicalScheduler (set_event_index i (base c)) (start_value c) (end_value c)
    (cycle_size c) (cycle_mult c) (cycle c).

(** [k(optimizer, param_name, start_value, end_value, cycle_size,
    cycle_mult, save_history)] for a class [k] of cyclical schedulers. *)
Definition instantiate (k : cyclical_cls) (optimizer : nat) (param_name : string)
    (start_value end_value cycle_size cycle_mult : Q) (save_history : bool) : scheduler :=
  Cyclical_obj k (CyclicalScheduler_init optimizer param_name start_value end_value
                    cycle_size cycle_mult save_history).


(** The active sub-scheduler has the optimizer, the parameter name and
    the history flag of the [ConcatScheduler] that runs it. *)
Definition targets_shared (self : ConcatScheduler) : Prop :=
  match _scheduler self with
  | Some sub =>
      optimizer (self_base sub) = optimizer (concat_base self) /\
      param_name (self_base sub) = param_name (concat_base self) /\
      save_history (self_base sub) = save_history (concat_base self)
  | None => True
  end.

(** What holds of a schedule constructed with cycle size [s > 0] and
    multiplier [m >= 1], whatever the numbers are. *)
Definition grown (k : cyclical_cls) (s m : Q) (x : scheduler) : Prop :=
  exists c, x = Cyclical_obj k c /\ cycle_mult c = m /\ (0 <= cycle c)%Z /\
            (cycle_size c == s * m ^ cycle c)%Q /\ (0 < cycle_size c)%Q.

(** *** Two entries with finite durations *)

(** Which entry serves call number [n] (counted from 0) of a
    [ConcatScheduler] with durations [d1] and [d2], [true] for the first,
    and how many calls that entry's sub-scheduler has had before. *)
Definition concat_phase (d1 d2 : Z) (n : nat) : bool * nat :=
  let r := (Z.of_nat n mod (d1 + d2 + 2))%Z in
  if (r <=? d1)%Z then (true, Z.to_nat r) else (false, Z.to_nat (r - d1 - 1)).

(** The events left before the next switch, after call number [n]. *)
Definition concat_countdown (d1 d2 : Z) (n : nat) : Z :=
  let r := (Z.of_nat n mod (d1 + d2 + 2))%Z in
  if (r <=? d1)%Z then (d1 - r)%Z else (d1 + d2 + 1 - r)%Z.

(** The [ConcatScheduler] over two entries after call number [n], with
    [sub] the active sub-scheduler. *)
Definition concat_after (p : ParamScheduler) (entries : list entry) (d1 d2 : Z) (n : nat)
    (sub : scheduler) : ConcatScheduler :=
  mk_ConcatScheduler p entries
    (if fst (concat_phase d1 d2 n) then 1%nat else 0%nat)
    (Some (concat_countdown d1 d2 n)) (Some sub).

(** A scheduler none of whose calls raises on its own side. *)
Definition never_raises (s : scheduler) : Prop :=
  forall i, exists s', sched_iter i s = Return s'.

(** The store [w'] of a later moment: the dictionaries of [w] are where
    they were, with their items, and optimizer [o] still has its groups. *)
Definition extends (w w' : world) (o : nat) : Prop :=
  (forall a, (a < length (dicts w))%nat -> dicts w' !! a = dicts w !! a) /\
  (length (dicts w) <= length (dicts w'))%nat /\
  exists groups, optimizers w' !! o = Some groups.

(** *** An example with two entries: a linear schedule for 3 events, then
    a cosine schedule for 2, whose dictionary names another parameter. *)
Definition example_entries : list entry :=
  [ (Cyclical_cls LinearScheduler_cls, 0%nat, Some 2%Z);
    (Cyclical_cls CosineScheduler_cls, 1%nat, Some 1%Z) ].

Definition example_linear_kwds : gmap string pyval :=
  {[ "start_value" := VNum 1; "end_value" := VNum 0; "cycle_size" := VNum 4 ]}.

Definition example_cosine_kwds : gmap string pyval :=
  {[ "start_value" := VNum 10; "end_value" := VNum 0; "cycle_size" := VNum 4;
     "param_name" := VStr "momentum" ]}.

Definition example_concat_world : world :=
  mk_world {[ 0%nat := [ {[ "lr" := 0.1%R ]} ] ]}
    [ example_linear_kwds; example_cosine_kwds ] None.

(** *** Two surroundings of one configuration *)

(** Two stores that give a scheduler the same configuration: the same
    dictionaries and the same optimizers to write to.  What the parameter
    groups hold, how many there are, and the history may differ. *)
Definition alike (w1 w2 : world) : Prop :=
  dicts w1 = dicts w2 /\
  forall id, optimizers w1 !! id = None <-> optimizers w2 !! id = None.

(** Both stores hold one and the same value under [name] in every group
    of optimizer [id]. *)
Definition same_value (id : nat) (name : string) (w1 w2 : world) : Prop :=
  exists v, holds_value w1 id name v /\ holds_value w2 id name v.

(** Another store for the end-to-end example: two groups with other
    values, and a history that is already there. *)
Definition example_world_2 : world :=
  mk_world {[ 0%nat := [ {[ "lr" := 5%R ]}; {[ "lr" := 7%R; "momentum" := 0.9%R ]} ] ]}
    [] (Some {[ "lr" := [ [1%R] ] ]}).

(** ** Definitions for the further properties *)


(** The values computed by the first [n] calls of a scheduler, in the
    order of the calls. *)
Fixpoint sched_trace (n : nat) (s : scheduler) : outcome (list R) :=
  match n with
  | O => Return []
  | S n' => obind (sched_trace n' s) (fun vs =>
            obind (sched_value n' s) (fun v => Return (vs ++ [v])))
  end.

(** The store after a run of calls that wrote [v] last and recorded the
    snapshots [snaps], when the run started in [w] with the [groups] of
    optimizer [o]. *)
Definition world_after_run (p : ParamScheduler) (groups : list (gmap string R)) (v : R)
    (snaps : list (list R)) (w : world) : world :=
  mk_world (<[optimizer p := written (param_name p) v groups]> (optimizers w))
    (dicts w)
    (if save_history p
     then Some (<[param_name p :=
                   default [] (default ∅ (param_history w) !! param_name p) ++ snaps]>
                  (default ∅ (param_history w)))
     else param_history w).

(** *** Who serves a call of a ConcatScheduler *)

(** From the entry and the number of calls its sub-scheduler has had, to
    those of the next call: the entry stays while its duration lasts (for
    ever when the duration is [None]), then the next entry of the list
    takes over, the first one after the last. *)
Definition serving_step (entries : list entry) (st : nat * nat) : nat * nat :=
  match entries !! fst st with
  | Some (_, _, Some d) =>
      if (Z.of_nat (snd st) <? d)%Z then (fst st, S (snd st))
      else (((fst st + 1) mod length entries)%nat, 0%nat)
  | Some (_, _, None) => (fst st, S (snd st))
  | None => st
  end.

(** The entry that serves call number [n] (counted from 0) and the
    number of calls its sub-scheduler has had before. *)
Fixpoint serving (entries : list entry) (n : nat) : nat * nat :=
  match n with
  | O => (0%nat, 0%nat)
  | S n' => serving_step entries (serving entries n')
  end.

(** The countdown after a call served by an entry of duration [duration]
    whose sub-scheduler had [local] calls before. *)
Definition countdown_after (duration : option Z) (local : nat) : option Z :=
  match duration with
  | Some d => Some (d - Z.of_nat local)%Z
  | None => None
  end.

(** Every entry of the list can be instantiated in store [w] for a
    [ConcatScheduler] with base attributes [p], and what it makes never
    raises. *)
Definition entries_ready (p : ParamScheduler) (entries : list entry) (w : world) : Prop :=
  forall idx cls a duration,
    entries !! idx = Some (cls, a, duration) ->
    exists kwds sub,
      dicts w !! a = Some kwds /\
      scheduler_new cls (shared_kwds p ∪ kwds) = Return sub /\
      never_raises sub.

(** * The arithmetic of [get_param]: Python numbers over binary64 *)

(** A decimal literal stands for the nearest binary64 value, as it does
    in Python. *)
Set Warnings "-inexact-float".

Module Binary64.

(** A Python number as the schedulers meet it: an [int], of any size, or
    a [float], which is an IEEE 754 binary64 value.  The value [np.cos]
    returns is a [numpy.float64]; its arithmetic is the same binary64
    arithmetic, and it is a [Float] here. *)
Inductive number : Type :=
  | Int (z : Z)
  | Float (f : float).

(** The integer [z] as a sign, a mantissa and the exponent 0. *)
Definition SF_of_int (z : Z) : spec_float :=
  match z with
  | Z0 => S754_zero false
  | Zpos p => S754_finite false p 0
  | Zneg p => S754_finite true p 0
  end.

(** [float(z)]: the nearest float, ties to even; an [int] beyond the
    range of the floats raises. *)
Definition float_of_int (z : Z) : outcome float :=
  let f := SF2Prim (binary_normalize prec emax z 0 false) in
  if is_infinity f then Raise OverflowError else Return f.

(** The operand of an operation that has a [float] on one side. *)
Definition as_float (n : number) : outcome float :=
  match n with
  | Int z => float_of_int z
  | Float f => Return f
  end.

(** [a + b], [a - b] and [a * b]: exact on two [int]s, and the binary64
    operation, which rounds to nearest, ties to even, as soon as one
    operand is a [float]. *)
Definition py_arith (int_op : Z -> Z -> Z) (float_op : float -> float -> float)
    (a b : number) : outcome number :=
  match a, b with
  | Int x, Int y => Return (Int (int_op x y))
  | _, _ =>
      obind (as_float a) (fun x =>
      obind (as_float b) (fun y => Return (Float (float_op x y))))
  end.

Definition py_add : number -> number -> outcome number := py_arith Z.add add.
Definition py_sub : number -> number -> outcome number := py_arith Z.sub sub.
Definition py_mul : number -> number -> outcome number := py_arith Z.mul mul.

(** [a / b] under [from __future__ import division]: always a [float].
    On two [int]s it is the quotient of the integers rounded once, and a
    quotient beyond the range of the floats raises; a zero divisor
    raises. *)
Definition py_truediv (a b : number) : outcome number :=
  match a, b with
  | Int x, Int y =>
      if (y =? 0)%Z then Raise ZeroDivisionError
      else
        let q := SF2Prim (SFdiv prec emax (SF_of_int x) (SF_of_int y)) in
        if is_infinity q then Raise OverflowError else Return (Float q)
  | _, _ =>
      obind (as_float a) (fun x =>
      obind (as_float b) (fun y =>
        if is_zero y then Raise ZeroDivisionError else Return (Float (x / y))))
  end.

(** [abs(a)] *)
Definition py_abs (a : number) : number :=
  match a with
  | Int x => Int (Z.abs x)
  | Float f => Float (abs f)
  end.

(** [a > 0] *)
Definition positive (a : number) : Prop :=
  match a with
  | Int x => (0 < x)%Z
  | Float f => (0 <? f)%float = true
  end.

(** [np.pi]: the float nearest to pi, 3.141592653589793. *)
Definition np_pi : float := 0x1.921fb54442d18p+1%float.

(** A [CyclicalScheduler] object with the numbers it was given. *)
Record CyclicalScheduler : Type := mk_CyclicalScheduler {
  base : ParamScheduler;
  start_value : number;
  end_value : number;
  cycle_size : number;
  cycle_mult : number;
  cycle : Z
}.

(** [CyclicalScheduler.__init__] *)
Definition CyclicalScheduler_init (optimizer : nat) (param_name : string)
    (start_value end_value cycle_size cycle_mult : number) (save_history : bool)
    : CyclicalScheduler :=
  mk_CyclicalScheduler (ParamScheduler_init optimizer param_name save_history)
    start_value end_value cycle_size cycle_mult 0.

(** The scheduler [c] with its event counter at [i]. *)
Definition at_event_index (i : Z) (c : CyclicalScheduler) : CyclicalScheduler :=
  mk_CyclicalScheduler (set_event_index i (base c)) (start_value c) (end_value c)
    (cycle_size c) (cycle_mult c) (cycle c).

(** [cycle_progress = self.event_index / self.cycle_size] *)
Definition cycle_progress (c : CyclicalScheduler) : outcome number :=
  py_truediv (Int (event_index (base c))) (cycle_size c).

(** [LinearScheduler.get_param]:
    [end_value + (start_value - end_value) * abs(cycle_progress - 0.5) * 2],
    the operations in Python's order. *)
Definition LinearScheduler_get_param (c : CyclicalScheduler) : outcome number :=
  obind (cycle_progress c) (fun p =>
  obind (py_sub (start_value c) (end_value c)) (fun d =>
  obind (py_sub p (Float 0.5)) (fun q =>
  obind (py_mul d (py_abs q)) (fun a =>
  obind (py_mul a (Int 2)) (fun b =>
  py_add (end_value c) b))))).

Section Numpy.

(** [np.cos] on a float.  It is the cosine of the platform's mathematical
    library, and the source fixes nothing of its rounding: it is any
    function from floats to floats here, and a statement says what it
    needs of it. *)
Variable np_cos : float -> float.

(** [np.cos(x)] *)
Definition np_cos_call (x : number) : outcome number :=
  obind (as_float x) (fun f => Return (Float (np_cos f))).

(** [CosineAnnealingScheduler.get_param]:
    [start_value + ((end_value - start_value) / 2) * (1 - np.cos(np.pi * cycle_progress))] *)
Definition CosineAnnealingScheduler_get_param (c : CyclicalScheduler) : outcome number :=
  obind (cycle_progress c) (fun p =>
  obind (py_sub (end_value c) (start_value c)) (fun d =>
  obind (py_truediv d (Int 2)) (fun h =>
  obind (py_mul (Float np_pi) p) (fun x =>
  obind (np_cos_call x) (fun co =>
  obind (py_sub (Int 1) co) (fun t =>
  obind (py_mul h t) (fun m =>
  py_add (start_value c) m))))))).

(** [CosineScheduler.get_param]:
    [start_value + ((end_value - start_value) / 2) * (1 - np.cos(2 * np.pi * cycle_progress))] *)
Definition CosineScheduler_get_param (c : CyclicalScheduler) : outcome number :=
  obind (cycle_progress c) (fun p =>
  obind (py_sub (end_value c) (start_value c)) (fun d =>
  obind (py_truediv d (Int 2)) (fun h =>
  obind (py_mul (Int 2) (Float np_pi)) (fun pi2 =>
  obind (py_mul pi2 p) (fun x =>
  obind (np_cos_call x) (fun co =>
  obind (py_sub (Int 1) co) (fun t =>
  obind (py_mul h t) (fun m =>
  py_add (start_value c) m)))))))).

(** Method dispatch: [CyclicalScheduler] itself inherits the
    [get_param] that raises. *)
Definition get_param (k : cyclical_cls) (c : CyclicalScheduler) : outcome number :=
  match k with
  | CyclicalScheduler_cls => Raise NotImplementedError
  | LinearScheduler_cls => LinearScheduler_get_param c
  | CosineAnnealingScheduler_cls => CosineAnnealingScheduler_get_param c
  | CosineScheduler_cls => CosineScheduler_get_param c
  end.

(** The waveform formulas as the specification words them, each
    operation a binary64 operation on floats, on a progress [p]. *)
Definition spec_Linear (start_value end_value p : float) : float :=
  (end_value + (start_value - end_value) * abs (p - 0.5) * 2)%float.
Definition spec_Cosine (start_value end_value p : float) : float :=
  (start_value + (end_value - start_value) / 2 * (1 - np_cos (2 * np_pi * p)))%float.

End Numpy.

(** The body of the [if] of [CyclicalScheduler.__call__], the reset:
    [event_index = 0], [cycle_size *= cycle_mult], [cycle += 1].  When
    the multiplication raises, the counter is 0 already. *)
Definition cycle_reset (c : CyclicalScheduler) : outcome unit * CyclicalScheduler :=
  match py_mul (cycle_size c) (cycle_mult c) with
  | Raise e => (Raise e, at_event_index 0 c)
  | Return z =>
      (Return tt,
       mk_CyclicalScheduler (set_event_index 0 (base c)) (start_value c) (end_value c)
         z (cycle_mult c) (cycle c + 1))
  end.

(** A stand-in for [np.cos] in the examples: the first terms of its
    series, which give 1 at 0. *)
Definition example_cos (x : float) : float :=
  (1 - x * x / 2 + x * x * x * x / 24)%float.

(** The end-to-end example of the waveforms: start 0.1, end 0.01, cycles
    of 10 events. *)
Definition example_scheduler : CyclicalScheduler :=
  CyclicalScheduler_init 0 "lr" (Float 0.1) (Float 0.01) (Int 10) (Int 1) false.

End Binary64.

(** * Properties *)

Lemma run_S {S} (m : Py S unit) (n : nat) (s : S) :
  run m (Datatypes.S n) s =
  match run m n s with
  | (Return _, s') => m s'
  | (Raise e, s') => (Raise e, s')
  end.
Proof. reflexivity. Qed.

Lemma collect_values_written (name : string) (v : R) (groups : list (gmap string R)) :
  collect_values name (written name v groups) = Return (replicate (length groups) v).
Proof.
  unfold written. induction groups as [|pg groups IH]; [reflexivity|].
  csimpl. rewrite lookup_insert_eq, IH. reflexivity.
Qed.

Lemma self_base_advance (s : scheduler) :
  self_base (advance s) = set_event_index (event_index (self_base s) + 1) (self_base s).
Proof. destruct s; reflexivity. Qed.

Lemma before_base_self_base (s s1 : scheduler) :
  before_base s = Return s1 ->
  optimizer (self_base s1) = optimizer (self_base s) /\
  param_name (self_base s1) = param_name (self_base s) /\
  save_history (self_base s1) = save_history (self_base s).
Proof.
  destruct s as [p|k c]; simpl.
  - intros [= <-]. auto.
  - unfold cycle_boundary. destruct (Z.eqb _ _).
    + simpl. intros [= <-]. auto.
    + destruct (py_mod _ _) as [m|e]; simpl; [|discriminate].
      destruct (Qeq_bool m 0); intros [= <-]; auto.
Qed.

(** The base call, when [get_param] returns and the optimizer is there. *)
Lemma ParamScheduler_call_returns (self : scheduler) (w : world) (v : R)
    (groups : list (gmap string R)) :
  get_param self = Return v ->
  optimizers w !! optimizer (self_base self) = Some groups ->
  ParamScheduler_call (self, w) = (Return tt, (advance self, world_after (self_base self) v w)).
Proof.
  intros Hv Hg.
  unfold ParamScheduler_call, bind, read_self, lift_outcome, read_param_groups,
    update_world, update_self, modify, world_after. simpl.
  rewrite Hv, Hg. simpl.
  destruct (save_history (self_base self)) eqn:Hs; [|reflexivity].
  destruct w as [os ds h]. simpl in Hg.
  unfold record_history, bind, update_world, modify, read_param_groups, lift_outcome,
    history_after, set_param_history, set_optimizers.
  destruct h as [h|]; simpl.
  - destruct (h !! param_name (self_base self)) as [l|] eqn:Hl; simpl;
      rewrite lookup_insert_eq;
      fold (written (param_name (self_base self)) v groups);
      rewrite collect_values_written; simpl.
    + rewrite Hl. reflexivity.
    + rewrite lookup_insert_eq, insert_insert_eq. reflexivity.
  - rewrite lookup_empty. simpl. rewrite lookup_insert_eq.
    fold (written (param_name (self_base self)) v groups).
    rewrite collect_values_written; simpl.
    rewrite lookup_insert_eq, insert_insert_eq. reflexivity.
Qed.

Lemma sched_step_self_base (s s' : scheduler) (v : R) :
  sched_step s = Return (s', v) ->
  optimizer (self_base s') = optimizer (self_base s) /\
  param_name (self_base s') = param_name (self_base s) /\
  save_history (self_base s') = save_history (self_base s).
Proof.
  unfold sched_step. destruct (before_base s) as [s1|e] eqn:Hb; simpl; [|discriminate].
  destruct (get_param s1) as [v1|e]; simpl; [|discriminate].
  intros [= <- <-]. apply before_base_self_base in Hb.
  rewrite self_base_advance. simpl. exact Hb.
Qed.

(** A call that the scheduler's side lets through. *)
Lemma scheduler_call_returns (s s' : scheduler) (v : R) (w : world)
    (groups : list (gmap string R)) :
  sched_step s = Return (s', v) ->
  optimizers w !! optimizer (self_base s) = Some groups ->
  scheduler_call (s, w) = (Return tt, (s', world_after (self_base s) v w)).
Proof.
  unfold sched_step. intros Hs Hg.
  destruct (before_base s) as [s1|e] eqn:Hb; simpl in Hs; [|discriminate].
  destruct (get_param s1) as [v1|e] eqn:Hv; simpl in Hs; [|discriminate].
  injection Hs as <- <-.
  destruct (before_base_self_base _ _ Hb) as (Ho & Hn & Hh).
  assert (Hw : world_after (self_base s) v1 w = world_after (self_base s1) v1 w).
  { unfold world_after. rewrite Ho, Hn, Hh. reflexivity. }
  rewrite Hw. rewrite <- Ho in Hg.
  destruct s as [p|k c]; simpl in Hb.
  - injection Hb as <-.
    exact (ParamScheduler_call_returns (ParamScheduler_obj p) w v1 groups Hv Hg).
  - destruct (cycle_boundary c) as [c'|e] eqn:Hc; simpl in Hb; [|discriminate].
    injection Hb as <-.
    unfold scheduler_call, CyclicalScheduler_call, bind, read_self, lift_outcome,
      update_self, modify. simpl. rewrite Hc.
    exact (ParamScheduler_call_returns (Cyclical_obj k c') w v1 groups Hv Hg).
Qed.

(** A call that raises on the scheduler's side: the exception reaches the
    caller, the store is as it was, and the scheduler keeps what the
    cycle-boundary block did to it. *)
Lemma scheduler_call_raises (s : scheduler) (e : exn) (w : world) :
  sched_step s = Raise e ->
  scheduler_call (s, w) =
    (Raise e, (match before_base s with Return s1 => s1 | Raise _ => s end, w)).
Proof.
  unfold sched_step. intros Hs.
  destruct s as [p|k c].
  - cbn in Hs. injection Hs as <-. reflexivity.
  - unfold scheduler_call, CyclicalScheduler_call, ParamScheduler_call, bind, read_self,
      lift_outcome, update_self, modify.
    cbn [before_base obind fst snd] in *.
    destruct (cycle_boundary c) as [c'|e'] eqn:Hc; cbn [obind fst snd] in *.
    + destruct (get_param (Cyclical_obj k c')) as [v|e'] eqn:Hv; cbn [obind] in Hs;
        [discriminate|].
      injection Hs as <-. reflexivity.
    + injection Hs as <-. reflexivity.
Qed.

Lemma world_after_optimizers (p : ParamScheduler) (v : R) (w : world)
    (groups : list (gmap string R)) :
  optimizers w !! optimizer p = Some groups ->
  optimizers (world_after p v w) !! optimizer p = Some (written (param_name p) v groups).
Proof.
  intros Hg. unfold world_after. rewrite Hg.
  destruct (save_history p); simpl; apply lookup_insert_eq.
Qed.

Lemma world_after_dicts (p : ParamScheduler) (v : R) (w : world) :
  dicts (world_after p v w) = dicts w.
Proof.
  unfold world_after. destruct (optimizers w !! optimizer p); [|reflexivity].
  destruct (save_history p); reflexivity.
Qed.

Lemma written_holds (name : string) (v : R) (groups : list (gmap string R)) :
  Forall (fun pg => pg !! name = Some v) (written name v groups).
Proof.
  unfold written. apply Forall_fmap, Forall_forall. intros pg _. simpl.
  apply lookup_insert_eq.
Qed.

Lemma world_after_holds (p : ParamScheduler) (v : R) (w : world)
    (groups : list (gmap string R)) :
  optimizers w !! optimizer p = Some groups ->
  holds_value (world_after p v w) (optimizer p) (param_name p) v.
Proof.
  intros Hg. exists (written (param_name p) v groups). split.
  - apply world_after_optimizers, Hg.
  - apply written_holds.
Qed.

Lemma sched_iter_self_base (n : nat) (s s' : scheduler) :
  sched_iter n s = Return s' ->
  optimizer (self_base s') = optimizer (self_base s) /\
  param_name (self_base s') = param_name (self_base s) /\
  save_history (self_base s') = save_history (self_base s).
Proof.
  revert s'. induction n as [|n IH]; simpl; intros s'.
  - intros [= <-]. auto.
  - destruct (sched_iter n s) as [s1|e]; simpl; [|discriminate].
    destruct (sched_step s1) as [[s2 v]|e] eqn:Hs; simpl; [|discriminate].
    intros [= <-]. destruct (IH s1 eq_refl) as (Ho & Hn & Hh).
    destruct (sched_step_self_base _ _ _ Hs) as (Ho' & Hn' & Hh').
    rewrite Ho', Hn', Hh'. auto.
Qed.

(** A run of events, when the scheduler's side never raises: the
    object follows [sched_iter], the dictionaries are not touched, and the
    optimizer holds the value of the last call. *)
Lemma run_scheduler_call (n : nat) (s s' : scheduler) (w : world)
    (groups : list (gmap string R)) :
  optimizers w !! optimizer (self_base s) = Some groups ->
  sched_iter n s = Return s' ->
  exists w', run scheduler_call n (s, w) = (Return tt, (s', w')) /\
             dicts w' = dicts w /\
             (exists groups', optimizers w' !! optimizer (self_base s) = Some groups' /\
                              length groups' = length groups) /\
             forall m v, n = S m -> sched_value m s = Return v ->
                         holds_value w' (optimizer (self_base s)) (param_name (self_base s)) v.
Proof.
  intros Hg. revert s'. induction n as [|n IH]; intros s' Hs.
  - simpl in Hs. injection Hs as <-. exists w. repeat split; eauto. discriminate.
  - simpl in Hs.
    destruct (sched_iter n s) as [s1|e] eqn:H1; simpl in Hs; [|discriminate].
    destruct (sched_step s1) as [[s2 v]|e] eqn:H2; simpl in Hs; [|discriminate].
    injection Hs as <-.
    destruct (IH s1 eq_refl) as (w1 & Hrun & Hd & (g1 & Hg1 & Hlen) & _).
    destruct (sched_iter_self_base _ _ _ H1) as (Ho & Hn & Hh).
    rewrite <- Ho in Hg1.
    exists (world_after (self_base s1) v w1). split; [|split; [|split]].
    + rewrite run_S, Hrun. apply (scheduler_call_returns _ _ _ _ g1); assumption.
    + rewrite world_after_dicts. exact Hd.
    + exists (written (param_name (self_base s1)) v g1). split.
      * rewrite <- Ho. apply world_after_optimizers, Hg1.
      * unfold written. rewrite length_fmap. exact Hlen.
    + intros m v' [= <-]. unfold sched_value. rewrite H1. simpl. rewrite H2. simpl.
      intros [= <-]. rewrite <- Ho, <- Hn. apply (world_after_holds _ _ _ g1), Hg1.
Qed.

(** ** Arithmetic of the cycle *)

Lemma Qeq_bool_false (q : Q) : Qeq_bool q 0 = false <-> ~ (q == 0)%Q.
Proof.
  split.
  - intros H E. apply Qeq_bool_iff in E. congruence.
  - intros H. destruct (Qeq_bool q 0) eqn:E; [|reflexivity].
    apply Qeq_bool_iff in E. contradiction.
Qed.



Lemma py_truediv_returns (a b : Q) :
  ~ (b == 0)%Q -> py_truediv a b = Return (a / b)%Q.
Proof. intros H. unfold py_truediv. apply Qeq_bool_false in H. rewrite H. reflexivity. Qed.

Lemma get_param_returns (k : cyclical_cls) (c : CyclicalScheduler) :
  has_waveform k = true -> ~ (cycle_size c == 0)%Q ->
  exists v, get_param (Cyclical_obj k c) = Return v.
Proof.
  intros Hk Hc.
  destruct k; try discriminate; simpl;
    unfold LinearScheduler_get_param, CosineAnnealingScheduler_get_param,
      CosineScheduler_get_param, cycle_progress;
    rewrite py_truediv_returns by exact Hc; simpl; eauto.
Qed.

(** What the cycle-boundary block does when the cycle size is not 0:
    nothing, or the reset. *)
Lemma cycle_boundary_cases (c : CyclicalScheduler) :
  ~ (cycle_size c == 0)%Q ->
  cycle_boundary c = Return c \/
  (event_index (base c) <> 0%Z /\ cycle_boundary c = Return (cycle_reset c)).
Proof.
  intros Hc. unfold cycle_boundary.
  destruct (Z.eqb_spec (event_index (base c)) 0) as [E|E]; [left; reflexivity|].
  unfold py_mod. apply Qeq_bool_false in Hc. rewrite Hc. clear Hc. cbn [obind].
  match goal with |- context [Qeq_bool ?x 0] => destruct (Qeq_bool x 0) end;
    [right; split; [assumption|reflexivity] | left; reflexivity].
Qed.

(** The generic invariant rule for runs seen from the scheduler. *)
Lemma sched_iter_invariant (P : scheduler -> Prop) :
  (forall s, P s -> exists s' v, sched_step s = Return (s', v) /\ P s') ->
  forall n s, P s -> exists s', sched_iter n s = Return s' /\ P s'.
Proof.
  intros Hstep n s Hs. induction n as [|n (s1 & H1 & HP)]; simpl.
  - eauto.
  - rewrite H1. simpl. destruct (Hstep s1 HP) as (s2 & v & H2 & HP2).
    rewrite H2. simpl. eauto.
Qed.

Lemma sched_step_cyclical (k : cyclical_cls) (c c' : CyclicalScheduler) (v : R) :
  cycle_boundary c = Return c' ->
  get_param (Cyclical_obj k c') = Return v ->
  sched_step (Cyclical_obj k c) = Return (advance (Cyclical_obj k c'), v).
Proof.
  intros Hb Hv. unfold sched_step. cbn [before_base]. rewrite Hb. cbn [obind].
  rewrite Hv. reflexivity.
Qed.

Lemma map_lookup_Forall (name : string) (v : R) (groups : list (gmap string R)) :
  Forall (fun pg => pg !! name = Some v) groups ->
  map (fun pg : gmap string R => pg !! name) groups = replicate (length groups) (Some v).
Proof.
  induction 1 as [|pg g Hpg _ IH]; simpl; [reflexivity|].
  rewrite Hpg, IH. reflexivity.
Qed.

Lemma holds_value_read_option (w : world) (id : nat) (name : string) (v : R)
    (groups : list (gmap string R)) :
  optimizers w !! id = Some groups ->
  holds_value w id name v ->
  read_option w id name = Some (replicate (length groups) (Some v)).
Proof.
  intros Hg (g & Hg' & Hall). rewrite Hg in Hg'. injection Hg' as ->.
  unfold read_option. rewrite Hg. f_equal. apply map_lookup_Forall, Hall.
Qed.

(** After call number [n] every group holds the value of that call. *)
Lemma run_read_option (n : nat) (s s' : scheduler) (v : R) (w : world)
    (groups : list (gmap string R)) :
  optimizers w !! optimizer (self_base s) = Some groups ->
  sched_iter (S n) s = Return s' ->
  sched_value n s = Return v ->
  exists w', run scheduler_call (S n) (s, w) = (Return tt, (s', w')) /\
             read_option w' (optimizer (self_base s)) (param_name (self_base s)) =
               Some (replicate (length groups) (Some v)).
Proof.
  intros Hg Hs Hv.
  destruct (run_scheduler_call (S n) s s' w groups Hg Hs)
    as (w' & Hrun & _ & (g' & Hg' & Hlen) & Hval).
  exists w'. split; [exact Hrun|].
  rewrite <- Hlen. apply holds_value_read_option; [exact Hg'|].
  apply (Hval n v eq_refl Hv).
Qed.

Lemma sched_iter_S_value (n : nat) (s : scheduler) (v : R) :
  sched_value n s = Return v -> exists s', sched_iter (S n) s = Return s'.
Proof.
  unfold sched_value. simpl. destruct (sched_iter n s) as [s1|e]; simpl; [|discriminate].
  destruct (sched_step s1) as [[s2 v2]|e]; simpl; [|discriminate]. eauto.
Qed.

Lemma Linear_value_sched_value (n : nat) (c : CyclicalScheduler) (q : Q) :
  Linear_value n c = Return q ->
  sched_value n (Cyclical_obj LinearScheduler_cls c) = Return (Q2R q).
Proof.
  unfold Linear_value, sched_value.
  destruct (sched_iter n _) as [[p|k c1]|e]; cbn [obind]; try discriminate.
  destruct k; try discriminate.
  unfold sched_step. cbn [before_base].
  destruct (cycle_boundary c1) as [c2|e]; cbn [obind]; [|discriminate].
  cbn [get_param]. unfold LinearScheduler_rational, LinearScheduler_get_param.
  destruct (cycle_progress c2) as [p|e]; cbn [obind]; [|discriminate].
  intros [= <-]. reflexivity.
Qed.

(** The example's option after call number [n], from the rational the
    call computes. *)
Lemma lr_after_Linear_value (n : nat) (q : Q) :
  Linear_value n (CyclicalScheduler_init 0 "lr" 0.1 0.01 10 1 false) = Return q ->
  lr_after (S n) = Some [Some (Q2R q)].
Proof.
  intros Hq. apply Linear_value_sched_value in Hq.
  destruct (sched_iter_S_value _ _ _ Hq) as (s' & Hs).
  destruct (run_read_option n example_scheduler s' (Q2R q) example_world
              [ {[ "lr" := 0.1%R ]} ]) as (w' & Hrun & Hread);
    [reflexivity | exact Hs | exact Hq |].
  unfold lr_after. rewrite Hrun. exact Hread.
Qed.

Ltac example_value :=
  erewrite lr_after_Linear_value by (vm_compute; reflexivity);
  do 3 f_equal; unfold Q2R; simpl; lra.

(** C1, as the spec words it, fails: the call computes the value before
    it increments [event_index], so after 5 calls the option holds the
    value of [event_index] 4, which is 0.028 and not 0.01; after 10 calls
    it holds 0.082 and not 0.1; after 15 calls 0.028 again. *)
Lemma example_after_5_10_15 :
  lr_after 5 = Some [Some 0.028%R] /\ lr_after 5 <> Some [Some 0.01%R] /\
  lr_after 10 = Some [Some 0.082%R] /\ lr_after 10 <> Some [Some 0.1%R] /\
  lr_after 15 = Some [Some 0.028%R] /\ lr_after 15 <> Some [Some 0.01%R].
Proof.
  assert (H5 : lr_after 5 = Some [Some 0.028%R]) by example_value.
  assert (H10 : lr_after 10 = Some [Some 0.082%R]) by example_value.
  assert (H15 : lr_after 15 = Some [Some 0.028%R]) by example_value.
  repeat split; try assumption.
  - rewrite H5. intros [= E]. lra.
  - rewrite H10. intros [= E]. lra.
  - rewrite H15. intros [= E]. lra.
Qed.

(** C1, amended: for the single group [{"lr": 0.1}] and the linear
    schedule with start 0.1, end 0.01, cycle size 10 and multiplier 1,
    the option equals 0.01 after 6 calls, 0.1 after 11 calls (the cycle
    has wrapped) and 0.01 again after 16 calls; the first call writes the
    start value. *)
Theorem example_after_6_11_16 :
  lr_after 1 = Some [Some 0.1%R] /\
  lr_after 6 = Some [Some 0.01%R] /\
  lr_after 11 = Some [Some 0.1%R] /\
  lr_after 16 = Some [Some 0.01%R].
Proof. repeat split; example_value. Qed.

(** ** The base call *)

(** C5: every call of the base class computes the value once, writes
    it under the name into every parameter group of the target (an empty
    target is left as it is, and the index still advances), appends one
    snapshot to the history under the name exactly when [save_history]
    is set, the snapshot holding the value once for each group, and
    increments [event_index] by 1. *)
Theorem ParamScheduler_call_spec (self : scheduler) (w : world) (value : R)
    (groups : list (gmap string R)) :
  get_param self = Return value ->
  optimizers w !! optimizer (self_base self) = Some groups ->
  exists self' w',
    ParamScheduler_call (self, w) = (Return tt, (self', w')) /\
    self' = advance self /\
    event_index (self_base self') = (event_index (self_base self) + 1)%Z /\
    optimizers w' =
      <[optimizer (self_base self) :=
          (fun pg => <[param_name (self_base self) := value]> pg) <$> groups]> (optimizers w) /\
    read_option w' (optimizer (self_base self)) (param_name (self_base self)) =
      Some (replicate (length groups) (Some value)) /\
    (groups = [] -> optimizers w' = optimizers w) /\
    (save_history (self_base self) = false -> param_history w' = param_history w) /\
    (save_history (self_base self) = true ->
       exists h', param_history w' = Some h' /\
         h' !! param_name (self_base self) =
           Some (default [] (default ∅ (param_history w) !! param_name (self_base self))
                 ++ [replicate (length groups) value]) /\
         forall other, other <> param_name (self_base self) ->
                       h' !! other = default ∅ (param_history w) !! other) /\
    dicts w' = dicts w.
Proof.
  intros Hv Hg. exists (advance self), (world_after (self_base self) value w).
  split; [apply (ParamScheduler_call_returns _ _ _ groups); assumption|].
  split; [reflexivity|].
  split; [rewrite self_base_advance; reflexivity|].
  assert (Ho : optimizers (world_after (self_base self) value w) =
               <[optimizer (self_base self) :=
                   written (param_name (self_base self)) value groups]> (optimizers w)).
  { unfold world_after. rewrite Hg. destruct (save_history (self_base self)); reflexivity. }
  split; [exact Ho|].
  split.
  { rewrite <- (length_fmap (fun pg => <[param_name (self_base self) := value]> pg) groups).
    apply holds_value_read_option.
    - apply world_after_optimizers, Hg.
    - apply (world_after_holds _ _ _ groups), Hg. }
  split.
  { intros ->. rewrite Ho. apply insert_id. exact Hg. }
  split.
  { intros Hs. unfold world_after. rewrite Hg, Hs. reflexivity. }
  split; [|apply world_after_dicts].
  intros Hs. unfold world_after. rewrite Hg, Hs. simpl. unfold history_after.
  eexists. split; [reflexivity|]. split.
  - apply lookup_insert_eq.
  - intros other Hne. apply lookup_insert_ne. congruence.
Qed.

Lemma ParamScheduler_call_spec_witness :
  exists self' w',
    ParamScheduler_call (example_scheduler, example_world) = (Return tt, (self', w')) /\
    event_index (self_base self') = 1%Z /\
    read_option w' 0 "lr" = Some [Some (Q2R 0.1)].
Proof.
  destruct (ParamScheduler_call_spec example_scheduler example_world
              (Q2R (0.01 + (0.1 - 0.01) * Qabs (inject_Z 0 / 10 - 0.5) * 2))
              [ {[ "lr" := 0.1%R ]} ] eq_refl eq_refl)
    as (self' & w' & Hcall & _ & Hidx & _ & Hread & _).
  exists self', w'. split; [exact Hcall|]. split; [exact Hidx|].
  etransitivity; [exact Hread|]. simpl. do 3 f_equal. apply Qeq_eqR. reflexivity.
Defined.
(** ** The waveforms in binary64 *)

Lemma Prim2SF_eq (x : float) (f : spec_float) : Prim2SF x = f -> x = SF2Prim f.
Proof. intros H. rewrite <- H. symmetry. apply SF2Prim_Prim2SF. Qed.

(** A finite float is a zero or has a mantissa. *)
Lemma is_finite_cases (h : float) :
  is_finite h = true ->
  (exists s, Prim2SF h = S754_zero s) \/ (exists s m e, Prim2SF h = S754_finite s m e).
Proof.
  unfold is_finite, is_nan, is_infinity. rewrite !FloatAxioms.eqb_spec, abs_spec.
  destruct (Prim2SF h) as [s|s| |s m e] eqn:E; intros H.
  - left. eauto.
  - exfalso. destruct s; vm_compute in H; discriminate.
  - exfalso. vm_compute in H. discriminate.
  - right. eauto.
Qed.

(** A finite float times 0 is a zero. *)
Lemma mul_zero_r (h : float) :
  is_finite h = true -> (h * 0 = 0 \/ h * 0 = -0)%float.
Proof.
  intros Hf.
  assert (H : exists s, Prim2SF (h * 0) = S754_zero s).
  { rewrite mul_spec. change (Prim2SF 0) with (S754_zero false).
    destruct (is_finite_cases h Hf) as [(s & ->)|(s & m & e & ->)]; cbn; eauto. }
  destruct H as (s & H). apply Prim2SF_eq in H. rewrite H.
  destruct s; [right|left]; reflexivity.
Qed.

(** Adding a zero changes nothing, but for [-0 + 0], which is [0]. *)
Lemma add_zero_r (s z : float) :
  (z = 0 \/ z = -0)%float ->
  (s + z = s \/ s = -0 /\ z = 0 /\ s + z = 0)%float.
Proof.
  intros Hz.
  assert (Hs : Prim2SF s = S754_zero true -> s = (-0)%float).
  { intros E. apply Prim2SF_eq in E. exact E. }
  destruct Hz as [-> | ->].
  - destruct (Prim2SF s) as [[]|b| |b m e] eqn:E.
    + right. split; [apply Hs; reflexivity|]. split; [reflexivity|].
      rewrite (Hs eq_refl). reflexivity.
    + left. apply Prim2SF_inj. rewrite add_spec, E. reflexivity.
    + left. apply Prim2SF_inj. rewrite add_spec, E. reflexivity.
    + left. apply Prim2SF_inj. rewrite add_spec, E. reflexivity.
    + left. apply Prim2SF_inj. rewrite add_spec, E. reflexivity.
  - left. apply Prim2SF_inj. rewrite add_spec.
    change (Prim2SF (-0)) with (S754_zero true).
    destruct (Prim2SF s) as [[]|b| |b m e]; reflexivity.
Qed.

(** [0 / cycle_size] for a cycle size above 0. *)
Lemma py_truediv_zero (n : Binary64.number) :
  Binary64.positive n ->
  Binary64.py_truediv (Binary64.Int 0) n = Return (Binary64.Float 0).
Proof.
  destruct n as [z|f]; cbn [Binary64.positive]; intros Hn.
  - destruct z as [|p|p]; try lia. vm_compute. reflexivity.
  - cbn [Binary64.py_truediv Binary64.as_float].
    change (Binary64.float_of_int 0) with (Return 0%float). cbn [obind].
    rewrite ltb_spec in Hn. change (Prim2SF 0) with (S754_zero false) in Hn.
    unfold is_zero. rewrite FloatAxioms.eqb_spec.
    change (Prim2SF zero) with (S754_zero false).
    assert (E : Prim2SF (0 / f) = S754_zero false).
    { rewrite div_spec. change (Prim2SF 0) with (S754_zero false).
      destruct (Prim2SF f) as [b|[]| |[] m e]; try discriminate; reflexivity. }
    rewrite (Prim2SF_eq _ _ E).
    destruct (Prim2SF f) as [b|[]| |[] m e]; try discriminate; reflexivity.
Qed.

(** Each [get_param] on float values, at the progress the division
    gives. *)
Lemma LinearScheduler_binary64 (c : Binary64.CyclicalScheduler) (s e p : float) :
  Binary64.start_value c = Binary64.Float s ->
  Binary64.end_value c = Binary64.Float e ->
  Binary64.cycle_progress c = Return (Binary64.Float p) ->
  Binary64.LinearScheduler_get_param c =
    Return (Binary64.Float (Binary64.spec_Linear s e p)).
Proof.
  intros Hs He Hp. unfold Binary64.LinearScheduler_get_param.
  rewrite Hp, Hs, He. reflexivity.
Qed.


Lemma CosineScheduler_binary64 (np_cos : float -> float) (c : Binary64.CyclicalScheduler)
    (s e p : float) :
  Binary64.start_value c = Binary64.Float s ->
  Binary64.end_value c = Binary64.Float e ->
  Binary64.cycle_progress c = Return (Binary64.Float p) ->
  Binary64.CosineScheduler_get_param np_cos c =
    Return (Binary64.Float (Binary64.spec_Cosine np_cos s e p)).
Proof.
  intros Hs He Hp. unfold Binary64.CosineScheduler_get_param.
  rewrite Hp, Hs, He. reflexivity.
Qed.




(** *** Cosine annealing *)

(** A value plus a finite number times 0 is the value, but for [-0],
    which can become [0]. *)
Lemma add_mul_zero (s h : float) :
  is_finite h = true ->
  (s + h * 0 = s \/ s = -0 /\ s + h * 0 = 0)%float.
Proof.
  intros Hh.
  destruct (add_zero_r s (h * 0) (mul_zero_r h Hh)) as [H|(H1 & _ & H2)]; auto.
Qed.


Lemma spec_Cosine_start (np_cos : float -> float) (s e : float) :
  np_cos 0%float = 1%float -> is_finite ((e - s) / 2) = true ->
  Binary64.spec_Cosine np_cos s e 0 = s \/
  s = (-0)%float /\ Binary64.spec_Cosine np_cos s e 0 = 0%float.
Proof.
  intros Hcos Hh. unfold Binary64.spec_Cosine.
  change (2 * Binary64.np_pi * 0)%float with 0%float. rewrite Hcos.
  change (1 - 1)%float with 0%float. apply add_mul_zero, Hh.
Qed.

Lemma cycle_progress_start (c : Binary64.CyclicalScheduler) :
  event_index (Binary64.base c) = 0%Z -> Binary64.positive (Binary64.cycle_size c) ->
  Binary64.cycle_progress c = Return (Binary64.Float 0).
Proof.
  intros Hi Hz. unfold Binary64.cycle_progress. rewrite Hi.
  apply py_truediv_zero, Hz.
Qed.




(** ** Cycles *)


(** A call away from the cycle boundary only counts the event. *)
Lemma sched_step_inside (k : cyclical_cls) (c : CyclicalScheduler) :
  has_waveform k = true -> ~ (cycle_size c == 0)%Q ->
  cycle_boundary c = Return c ->
  exists v, sched_step (Cyclical_obj k c) =
              Return (Cyclical_obj k (at_event_index (event_index (base c) + 1) c), v).
Proof.
  intros Hk Hc Hb. destruct (get_param_returns k c Hk Hc) as (v & Hv).
  exists v. apply (sched_step_cyclical k c c v Hb Hv).
Qed.

(** The call at the cycle boundary starts the next cycle. *)
Lemma sched_step_reset (k : cyclical_cls) (c : CyclicalScheduler) :
  has_waveform k = true -> ~ (cycle_size c * cycle_mult c == 0)%Q ->
  cycle_boundary c = Return (cycle_reset c) ->
  exists v, sched_step (Cyclical_obj k c) =
              Return (Cyclical_obj k (at_event_index 1 (cycle_reset c)), v).
Proof.
  intros Hk Hc Hb. destruct (get_param_returns k (cycle_reset c) Hk Hc) as (v & Hv).
  exists v. apply (sched_step_cyclical k c (cycle_reset c) v Hb Hv).
Qed.

(** *** Integer cycle sizes *)








(** *** Growth of the cycle *)

Lemma Qmult_ge_1 (a m : Q) : (0 < a)%Q -> (1 <= m)%Q -> (a <= a * m)%Q.
Proof.
  intros Ha Hm. rewrite <- (Qmult_1_r a) at 1.
  apply Qmult_le_l; assumption.
Qed.

Lemma Qpower_succ (m : Q) (j : Z) :
  (0 < m)%Q -> (0 <= j)%Z -> (m ^ (j + 1) == m ^ j * m)%Q.
Proof.
  intros Hm Hj. rewrite Qpower_plus.
  - reflexivity.
  - intros E. rewrite E in Hm. discriminate.
Qed.

Lemma sched_step_grown (k : cyclical_cls) (s m : Q) (c : CyclicalScheduler) :
  has_waveform k = true -> (0 < s)%Q -> (1 <= m)%Q ->
  grown k s m (Cyclical_obj k c) ->
  exists c' v,
    sched_step (Cyclical_obj k c) = Return (Cyclical_obj k c', v) /\
    grown k s m (Cyclical_obj k c') /\
    (cycle_size c <= cycle_size c')%Q /\
    ((cycle c' = cycle c /\ cycle_size c' = cycle_size c) \/
     (cycle c' = (cycle c + 1)%Z /\ cycle_size c' = (cycle_size c * m)%Q)).
Proof.
  intros Hk Hs Hm (c0 & [= <-] & Hcm & Hj & Hcs & Hpos).
  assert (Hm0 : (0 < m)%Q) by (apply Qlt_le_trans with 1%Q; [reflexivity|exact Hm]).
  assert (Hne : ~ (cycle_size c == 0)%Q).
  { intros E. rewrite E in Hpos. discriminate. }
  assert (Hpos' : (0 < cycle_size c * m)%Q).
  { apply Qmult_lt_0_compat; assumption. }
  destruct (cycle_boundary_cases c Hne) as [Hb|[_ Hb]].
  - destruct (sched_step_inside k c Hk Hne Hb) as (v & Hv).
    eexists _, v. split; [exact Hv|]. split; [|split].
    + eexists. split; [reflexivity|]. simpl. auto.
    + simpl. apply Qle_refl.
    + left. split; reflexivity.
  - destruct (sched_step_reset k c Hk) as (v & Hv); [|exact Hb|].
    { rewrite Hcm. intros E. rewrite E in Hpos'. discriminate. }
    eexists _, v. split; [exact Hv|]. split; [|split].
    + eexists. split; [reflexivity|]. simpl. rewrite Hcm.
      split; [reflexivity|]. split; [lia|]. split; [|exact Hpos'].
      rewrite Qpower_succ by assumption. rewrite Hcs. ring.
    + simpl. rewrite Hcm. apply Qmult_ge_1; assumption.
    + right. simpl. rewrite Hcm. split; reflexivity.
Qed.

Lemma sched_iter_grown (k : cyclical_cls) (s m : Q) (x : scheduler) (n : nat) :
  has_waveform k = true -> (0 < s)%Q -> (1 <= m)%Q ->
  grown k s m x ->
  exists x', sched_iter n x = Return x' /\ grown k s m x'.
Proof.
  intros Hk Hs Hm. apply sched_iter_invariant.
  intros y Hy. destruct Hy as (c & -> & Hc).
  destruct (sched_step_grown k s m c Hk Hs Hm) as (c' & v & Hv & Hg & _).
  - exists c. split; [reflexivity|exact Hc].
  - eauto.
Qed.

Lemma instantiate_grown (k : cyclical_cls) (o : nat) (name : string) (sv ev s m : Q)
    (h : bool) :
  (0 < s)%Q -> grown k s m (instantiate k o name sv ev s m h).
Proof.
  intros Hs. eexists. split; [reflexivity|]. simpl.
  split; [reflexivity|]. split; [lia|]. split; [|exact Hs].
  rewrite Qmult_1_r. reflexivity.
Qed.






(** ** Exceptions *)


Lemma ParamScheduler_call_no_groups (self : scheduler) (w : world) (v : R) :
  get_param self = Return v ->
  optimizers w !! optimizer (self_base self) = None ->
  ParamScheduler_call (self, w) = (Raise AttributeError, (self, w)).
Proof.
  intros Hv Hg. unfold ParamScheduler_call, bind, read_self, lift_outcome, read_param_groups.
  cbn [fst snd]. rewrite Hv, Hg. reflexivity.
Qed.

(** Every call of a scheduler falls under one of three descriptions. *)
Lemma scheduler_call_cases (s : scheduler) (w : world) :
  (exists s' v groups,
     sched_step s = Return (s', v) /\
     optimizers w !! optimizer (self_base s) = Some groups /\
     scheduler_call (s, w) = (Return tt, (s', world_after (self_base s) v w))) \/
  (exists s1 v,
     before_base s = Return s1 /\ get_param s1 = Return v /\
     optimizers w !! optimizer (self_base s) = None /\
     scheduler_call (s, w) = (Raise AttributeError, (s1, w))) \/
  (exists e,
     sched_step s = Raise e /\
     scheduler_call (s, w) =
       (Raise e, (match before_base s with Return s1 => s1 | Raise _ => s end, w))).
Proof.
  destruct (sched_step s) as [[s' v]|e] eqn:Hs.
  - destruct (optimizers w !! optimizer (self_base s)) as [groups|] eqn:Hg.
    + left. exists s', v, groups. repeat split.
      apply (scheduler_call_returns _ _ _ _ groups); assumption.
    + right. left. unfold sched_step in Hs.
      destruct (before_base s) as [s1|e] eqn:Hb; cbn [obind] in Hs; [|discriminate].
      destruct (get_param s1) as [v1|e] eqn:Hv; cbn [obind] in Hs; [|discriminate].
      exists s1, v1.
      destruct (before_base_self_base _ _ Hb) as (Ho & _).
      split; [reflexivity|]. split; [exact Hv|]. split; [reflexivity|].
      rewrite <- Ho in Hg.
      destruct s as [p|k c]; cbn [before_base] in Hb.
      * injection Hb as <-. exact (ParamScheduler_call_no_groups _ w v1 Hv Hg).
      * destruct (cycle_boundary c) as [c'|e] eqn:Hc; cbn [obind] in Hb; [|discriminate].
        injection Hb as <-.
        unfold scheduler_call, CyclicalScheduler_call, bind, read_self, lift_outcome,
          update_self, modify. cbn [fst snd]. rewrite Hc.
        exact (ParamScheduler_call_no_groups _ w v1 Hv Hg).
  - right. right. exists e. split; [reflexivity|]. apply scheduler_call_raises, Hs.
Qed.

(** A call never changes what the scheduler was constructed with, and
    it leaves the dictionaries alone. *)
Lemma scheduler_call_frame (s : scheduler) (w : world) :
  optimizer (self_base (fst (snd (scheduler_call (s, w))))) = optimizer (self_base s) /\
  param_name (self_base (fst (snd (scheduler_call (s, w))))) = param_name (self_base s) /\
  save_history (self_base (fst (snd (scheduler_call (s, w))))) = save_history (self_base s) /\
  dicts (snd (snd (scheduler_call (s, w)))) = dicts w.
Proof.
  destruct (scheduler_call_cases s w)
    as [(s' & v & g & Hs & _ & ->)|[(s1 & v & Hb & _ & _ & ->)|(e & _ & ->)]];
    cbn [fst snd].
  - destruct (sched_step_self_base _ _ _ Hs) as (Ho & Hn & Hh).
    rewrite world_after_dicts. auto.
  - destruct (before_base_self_base _ _ Hb) as (Ho & Hn & Hh). auto.
  - destruct (before_base s) as [s1|e'] eqn:Hb; [|auto].
    destruct (before_base_self_base _ _ Hb) as (Ho & Hn & Hh). auto.
Qed.


(** ** ConcatScheduler *)

Lemma lookup_snoc_length {A} (l : list A) (y : A) : (l ++ [y]) !! length l = Some y.
Proof. induction l as [|x l IH]; [reflexivity|exact IH]. Qed.

Lemma insert_snoc_length {A} (l : list A) (x y : A) :
  <[length l := x]> (l ++ [y]) = l ++ [x].
Proof. induction l as [|z l IH]; [reflexivity|]. simpl. f_equal. exact IH. Qed.

Lemma lookup_snoc_lt {A} (l : list A) (y : A) (i : nat) :
  (i < length l)%nat -> (l ++ [y]) !! i = l !! i.
Proof. intros H. apply lookup_app_l, H. Qed.

(** The dictionary a switch builds for the constructor: the entry's items
    under the three shared ones. *)
Lemma lookup_shared_kwds (p : ParamScheduler) (d : gmap string pyval) :
  (shared_kwds p ∪ d) !! "optimizer" = Some (VOptimizer (optimizer p)) /\
  (shared_kwds p ∪ d) !! "param_name" = Some (VStr (param_name p)) /\
  (shared_kwds p ∪ d) !! "save_history" = Some (VBool (save_history p)) /\
  forall k, k <> "optimizer" -> k <> "param_name" -> k <> "save_history" ->
            (shared_kwds p ∪ d) !! k = d !! k.
Proof.
  repeat split; try (apply lookup_union_Some_l; reflexivity).
  intros k H1 H2 H3. apply lookup_union_r. unfold shared_kwds.
  rewrite !lookup_insert_ne by congruence. apply lookup_singleton_ne. congruence.
Qed.

(** What [_next_scheduler] does, case by case. *)
Lemma next_scheduler_unfold (self : ConcatScheduler) (w : world) :
  _next_scheduler (self, w) =
  match _schedulers_list self !! _schedulers_index self with
  | None => (Raise IndexError, (self, w))
  | Some (cls, a, duration) =>
      match dicts w !! a with
      | None => (Raise AttributeError, (set_next_scheduler_switch duration self, w))
      | Some d =>
          let kwds := shared_kwds (concat_base self) ∪ d in
          let w' := set_dicts (fun ds => ds ++ [kwds]) w in
          match scheduler_new cls kwds with
          | Raise e => (Raise e, (set_next_scheduler_switch duration self, w'))
          | Return sub =>
              (Return tt,
               (mk_ConcatScheduler (concat_base self) (_schedulers_list self)
                  ((_schedulers_index self + 1) mod length (_schedulers_list self))%nat
                  duration (Some sub), w'))
          end
      end
  end.
Proof.
  unfold _next_scheduler, bind, read_self. cbn [fst snd].
  destruct (_schedulers_list self !! _schedulers_index self) as [[[cls a] duration]|];
    [|reflexivity].
  unfold update_self, modify, dict_copy, dict_update, read_dict, lift_outcome.
  cbn [fst snd].
  destruct (dicts w !! a) as [d|]; [|reflexivity].
  unfold set_dicts. cbn [fst snd dicts optimizers param_history].
  rewrite lookup_snoc_length. cbn [fst snd dicts optimizers param_history].
  rewrite insert_snoc_length, lookup_snoc_length.
  destruct (scheduler_new cls (shared_kwds (concat_base self) ∪ d)); reflexivity.
Qed.

Lemma ConcatScheduler_call_unfold (self : ConcatScheduler) (w : world) :
  ConcatScheduler_call (self, w) =
  match _next_scheduler_switch self with
  | None => delegate (self, w)
  | Some n =>
      if (n - 1 <? 0)%Z
      then match _next_scheduler (set_next_scheduler_switch (Some (n - 1)) self, w) with
           | (Return _, st) => delegate st
           | (Raise e, st) => (Raise e, st)
           end
      else delegate (set_next_scheduler_switch (Some (n - 1)) self, w)
  end.
Proof.
  unfold ConcatScheduler_call, bind, read_self, update_self, modify, ret. cbn [fst snd].
  destruct (_next_scheduler_switch self) as [n|]; [|reflexivity].
  destruct (n - 1 <? 0)%Z; [|reflexivity].
  destruct (_next_scheduler _) as [[[]|e] st]; reflexivity.
Qed.

(** The object a class makes from keyword arguments starts at event 0 and
    takes the three base attributes from the dictionary. *)
Lemma scheduler_new_base (cls : scheduler_cls) (kwds : gmap string pyval) (sub : scheduler)
    (o : nat) (name : string) (h : bool) :
  kwds !! "optimizer" = Some (VOptimizer o) ->
  kwds !! "param_name" = Some (VStr name) ->
  kwds !! "save_history" = Some (VBool h) ->
  scheduler_new cls kwds = Return sub ->
  self_base sub = ParamScheduler_init o name h.
Proof.
  intros Ho Hn Hh.
  destruct cls as [|k]; cbn [scheduler_new]; unfold ParamScheduler_new, CyclicalScheduler_new,
    kw_required; rewrite ?Ho, ?Hn, ?Hh; cbn [obind as_optimizer as_str as_bool from_option Datatypes.id];
    destruct (bool_decide _); cbn [obind]; try discriminate.
  - intros [= <-]. reflexivity.
  - repeat match goal with
           | |- obind (obind ?x ?f) ?g = _ -> _ =>
               destruct x; cbn [obind]; try discriminate
           | |- obind (?f ?x) ?g = _ -> _ =>
               destruct (f x); cbn [obind]; try discriminate
           end.
    intros [= <-]. reflexivity.
Qed.

Lemma scheduler_new_shared (cls : scheduler_cls) (p : ParamScheduler)
    (d : gmap string pyval) (sub : scheduler) :
  scheduler_new cls (shared_kwds p ∪ d) = Return sub ->
  self_base sub = ParamScheduler_init (optimizer p) (param_name p) (save_history p).
Proof.
  destruct (lookup_shared_kwds p d) as (Ho & Hn & Hh & _).
  apply scheduler_new_base; assumption.
Qed.

(** *** The switch *)

Lemma delegate_frame (self : ConcatScheduler) (w : world) :
  targets_shared self ->
  targets_shared (fst (snd (delegate (self, w)))) /\
  concat_base (fst (snd (delegate (self, w)))) = concat_base self /\
  _schedulers_list (fst (snd (delegate (self, w)))) = _schedulers_list self /\
  dicts (snd (snd (delegate (self, w)))) = dicts w.
Proof.
  unfold delegate, targets_shared. cbn [fst snd].
  destruct (_scheduler self) as [sub|] eqn:Hsub;
    [|cbn [fst snd]; rewrite Hsub; auto].
  intros (Ho & Hn & Hh).
  destruct (scheduler_call_frame sub w) as (Ho' & Hn' & Hh' & Hd).
  destruct (scheduler_call (sub, w)) as [r [sub' w']]. simpl in *.
  rewrite Ho', Hn', Hh'. auto 10.
Qed.

Lemma next_scheduler_frame (self : ConcatScheduler) (w : world) :
  targets_shared self ->
  targets_shared (fst (snd (_next_scheduler (self, w)))) /\
  concat_base (fst (snd (_next_scheduler (self, w)))) = concat_base self /\
  _schedulers_list (fst (snd (_next_scheduler (self, w)))) = _schedulers_list self /\
  forall a, (a < length (dicts w))%nat ->
            dicts (snd (snd (_next_scheduler (self, w)))) !! a = dicts w !! a.
Proof.
  intros Ht. rewrite next_scheduler_unfold.
  destruct (_schedulers_list self !! _schedulers_index self) as [[[cls a] duration]|];
    [|cbn [fst snd]; auto].
  destruct (dicts w !! a) as [d|]; [|cbn [fst snd]; auto].
  cbv zeta.
  destruct (scheduler_new cls (shared_kwds (concat_base self) ∪ d)) as [sub|e] eqn:Hnew;
    cbn [fst snd].
  - split; [|split; [reflexivity|split; [reflexivity|]]].
    + unfold targets_shared. cbn [_scheduler concat_base].
      rewrite (scheduler_new_shared _ _ _ _ Hnew). auto.
    + intros a' Ha. apply lookup_snoc_lt, Ha.
  - split; [exact Ht|]. split; [reflexivity|]. split; [reflexivity|].
    intros a' Ha. apply lookup_snoc_lt, Ha.
Qed.

Lemma ConcatScheduler_call_frame (self : ConcatScheduler) (w : world) :
  targets_shared self ->
  targets_shared (fst (snd (ConcatScheduler_call (self, w)))) /\
  concat_base (fst (snd (ConcatScheduler_call (self, w)))) = concat_base self /\
  _schedulers_list (fst (snd (ConcatScheduler_call (self, w)))) = _schedulers_list self /\
  forall a, (a < length (dicts w))%nat ->
            dicts (snd (snd (ConcatScheduler_call (self, w)))) !! a = dicts w !! a.
Proof.
  intros Ht. rewrite ConcatScheduler_call_unfold.
  destruct (_next_scheduler_switch self) as [n|].
  - destruct (n - 1 <? 0)%Z.
    + destruct (next_scheduler_frame (set_next_scheduler_switch (Some (n - 1)) self) w Ht)
        as (Ht1 & Hb1 & Hl1 & Hd1).
      destruct (_next_scheduler _) as [[[]|e] [self1 w1]]; cbn [fst snd] in *.
      * destruct (delegate_frame self1 w1 Ht1) as (Ht2 & Hb2 & Hl2 & Hd2).
        rewrite Hb2, Hl2, Hd2. repeat split; auto.
      * repeat split; auto.
    + destruct (delegate_frame (set_next_scheduler_switch (Some (n - 1)) self) w Ht)
        as (Ht2 & Hb2 & Hl2 & Hd2).
      rewrite Hd2. repeat split; auto.
  - destruct (delegate_frame self w Ht) as (Ht2 & Hb2 & Hl2 & Hd2).
    rewrite Hd2. repeat split; auto.
Qed.

Lemma run_ConcatScheduler_call_frame (n : nat) (self : ConcatScheduler) (w : world) :
  targets_shared self ->
  targets_shared (fst (snd (run ConcatScheduler_call n (self, w)))) /\
  concat_base (fst (snd (run ConcatScheduler_call n (self, w)))) = concat_base self /\
  _schedulers_list (fst (snd (run ConcatScheduler_call n (self, w)))) = _schedulers_list self /\
  (length (dicts w) <= length (dicts (snd (snd (run ConcatScheduler_call n (self, w))))))%nat /\
  forall a, (a < length (dicts w))%nat ->
            dicts (snd (snd (run ConcatScheduler_call n (self, w)))) !! a = dicts w !! a.
Proof.
  intros Ht. induction n as [|n (Ht1 & Hb1 & Hl1 & Hlen & Hd1)].
  - cbn [run ret fst snd]. auto.
  - rewrite run_S.
    destruct (run ConcatScheduler_call n (self, w)) as [[[]|e] [self1 w1]];
      cbn [fst snd] in *; [|auto].
    destruct (ConcatScheduler_call_frame self1 w1 Ht1) as (Ht2 & Hb2 & Hl2 & Hd2).
    rewrite Hb2, Hl2. repeat split; auto.
    + destruct (decide (length (dicts w) = 0)%nat) as [E|E]; [lia|].
      apply Nat.nlt_ge. intros Hlt.
      assert (Hlast : (length (dicts w) - 1 < length (dicts w))%nat) by lia.
      pose proof (Hd1 _ Hlast) as H1.
      assert (H2 := Hd2 (length (dicts w) - 1)%nat ltac:(lia)).
      rewrite H1 in H2.
      apply lookup_lt_is_Some_2 in Hlast. destruct Hlast as [x Hx].
      rewrite Hx in H2. apply lookup_lt_Some in H2. lia.
    + intros a Ha. rewrite Hd2 by lia. apply Hd1, Ha.
Qed.

(** C10: every sub-schedule a [ConcatScheduler] instantiates on a
    switch is constructed with the [ConcatScheduler]'s own optimizer,
    parameter name and history flag, which override whatever the entry's
    dictionary holds under those keys; the entry's dictionary itself is
    not changed, because the update goes to a copy; and the active
    sub-schedule therefore always targets the [ConcatScheduler]'s
    parameter name. *)
Theorem switch_shares_target :
  (forall (self : ConcatScheduler) (w : world) (cls : scheduler_cls) (a : nat)
          (duration : option Z) (d : gmap string pyval) (sub : scheduler),
     _schedulers_list self !! _schedulers_index self = Some (cls, a, duration) ->
     dicts w !! a = Some d ->
     scheduler_new cls (shared_kwds (concat_base self) ∪ d) = Return sub ->
     exists self' w' kwds,
       _next_scheduler (self, w) = (Return tt, (self', w')) /\
       _scheduler self' = Some sub /\
       (* the copy, updated, is what the class was called with *)
       dicts w' !! length (dicts w) = Some kwds /\
       scheduler_new cls kwds = Return sub /\
       kwds !! "optimizer" = Some (VOptimizer (optimizer (concat_base self))) /\
       kwds !! "param_name" = Some (VStr (param_name (concat_base self))) /\
       kwds !! "save_history" = Some (VBool (save_history (concat_base self))) /\
       (forall k, k <> "optimizer" -> k <> "param_name" -> k <> "save_history" ->
                  kwds !! k = d !! k) /\
       self_base sub = ParamScheduler_init (optimizer (concat_base self))
                         (param_name (concat_base self)) (save_history (concat_base self)) /\
       (* the entry and its dictionary are as they were *)
       _schedulers_list self' = _schedulers_list self /\
       dicts w' !! a = Some d /\
       (forall a', (a' < length (dicts w))%nat -> dicts w' !! a' = dicts w !! a')) /\
  (forall (o : nat) (name : string) (schedulers_list : list entry) (h : bool)
          (w : world) (n : nat),
     targets_shared
       (fst (snd (run ConcatScheduler_call n
                    (ConcatScheduler_init o name schedulers_list h, w)))) /\
     concat_base
       (fst (snd (run ConcatScheduler_call n
                    (ConcatScheduler_init o name schedulers_list h, w)))) =
       ParamScheduler_init o name h /\
     forall a, (a < length (dicts w))%nat ->
       dicts (snd (snd (run ConcatScheduler_call n
                          (ConcatScheduler_init o name schedulers_list h, w)))) !! a =
       dicts w !! a).
Proof.
  split.
  - intros self w cls a duration d sub Hentry Hd Hnew.
    destruct (lookup_shared_kwds (concat_base self) d) as (Ho & Hn & Hh & Hother).
    eexists _, _, (shared_kwds (concat_base self) ∪ d).
    split.
    { rewrite next_scheduler_unfold, Hentry, Hd. cbv zeta. rewrite Hnew. reflexivity. }
    cbn [_scheduler _schedulers_list set_dicts dicts].
    split; [reflexivity|]. split; [apply lookup_snoc_length|].
    split; [exact Hnew|]. split; [exact Ho|]. split; [exact Hn|]. split; [exact Hh|].
    split; [exact Hother|].
    split; [apply (scheduler_new_shared _ _ _ _ Hnew)|].
    split; [reflexivity|].
    assert (Ha : (a < length (dicts w))%nat) by (apply lookup_lt_Some in Hd; exact Hd).
    split.
    + rewrite lookup_snoc_lt by exact Ha. exact Hd.
    + intros a' Ha'. apply lookup_snoc_lt, Ha'.
  - intros o name schedulers_list h w n.
    destruct (run_ConcatScheduler_call_frame n (ConcatScheduler_init o name schedulers_list h)
                w I) as (Ht & Hb & _ & _ & Hd).
    auto.
Qed.

Lemma switch_shares_target_witness :
  exists self' w' sub,
    _next_scheduler
      (ConcatScheduler_init 0 "lr" [ (Cyclical_cls LinearScheduler_cls, 0%nat, Some 3%Z) ] true,
       mk_world ∅ [ {[ "start_value" := VNum 1; "end_value" := VNum 0;
                       "cycle_size" := VNum 4; "param_name" := VStr "momentum";
                       "optimizer" := VOptimizer 7 ]} ] None) =
      (Return tt, (self', w')) /\
    _scheduler self' = Some sub /\
    self_base sub = ParamScheduler_init 0 "lr" true /\
    dicts w' !! 0%nat = Some {[ "start_value" := VNum 1; "end_value" := VNum 0;
                                "cycle_size" := VNum 4; "param_name" := VStr "momentum";
                                "optimizer" := VOptimizer 7 ]}.
Proof.
  destruct (proj1 switch_shares_target
              (ConcatScheduler_init 0 "lr"
                 [ (Cyclical_cls LinearScheduler_cls, 0%nat, Some 3%Z) ] true)
              (mk_world ∅ [ {[ "start_value" := VNum 1; "end_value" := VNum 0;
                               "cycle_size" := VNum 4; "param_name" := VStr "momentum";
                               "optimizer" := VOptimizer 7 ]} ] None)
              (Cyclical_cls LinearScheduler_cls) 0%nat (Some 3%Z)
              {[ "start_value" := VNum 1; "end_value" := VNum 0;
                 "cycle_size" := VNum 4; "param_name" := VStr "momentum";
                 "optimizer" := VOptimizer 7 ]}
              (Cyclical_obj LinearScheduler_cls (CyclicalScheduler_init 0 "lr" 1 0 4 1 true))
              eq_refl eq_refl)
    as (self' & w' & kwds & Hcall & Hsub & _ & _ & _ & _ & _ & _ & Hbase & _ & Hd & _).
  { vm_compute. reflexivity. }
  exists self', w'. eexists.
  split; [exact Hcall|]. split; [exact Hsub|]. split; [exact Hbase|exact Hd].
Defined.

(** *** Exceptions through a ConcatScheduler *)






(** *** The sequence of a ConcatScheduler *)

(** A call inside an entry's duration goes to the active sub-scheduler. *)
Lemma ConcatScheduler_call_delegates (self : ConcatScheduler) (w : world) (c : Z)
    (sub sub' : scheduler) (v : R) (groups : list (gmap string R)) :
  _next_scheduler_switch self = Some c -> (1 <= c)%Z ->
  _scheduler self = Some sub ->
  sched_step sub = Return (sub', v) ->
  optimizers w !! optimizer (self_base sub) = Some groups ->
  ConcatScheduler_call (self, w) =
    (Return tt,
     (mk_ConcatScheduler (concat_base self) (_schedulers_list self) (_schedulers_index self)
        (Some (c - 1)%Z) (Some sub'),
      world_after (self_base sub) v w)).
Proof.
  intros Hc Hpos Hsub Hstep Hg.
  rewrite ConcatScheduler_call_unfold, Hc.
  destruct (Z.ltb_spec (c - 1) 0) as [Hlt|_]; [lia|].
  unfold delegate. cbn [fst snd set_next_scheduler_switch _scheduler]. rewrite Hsub.
  rewrite (scheduler_call_returns sub sub' v w groups Hstep Hg). reflexivity.
Qed.

(** A call after the duration has run out instantiates the next entry and
    goes to the new sub-scheduler. *)
Lemma ConcatScheduler_call_switches (self : ConcatScheduler) (w : world) (c : Z)
    (cls : scheduler_cls) (a : nat) (duration : option Z) (d : gmap string pyval)
    (sub sub' : scheduler) (v : R) (groups : list (gmap string R)) :
  _next_scheduler_switch self = Some c -> (c <= 0)%Z ->
  _schedulers_list self !! _schedulers_index self = Some (cls, a, duration) ->
  dicts w !! a = Some d ->
  scheduler_new cls (shared_kwds (concat_base self) ∪ d) = Return sub ->
  sched_step sub = Return (sub', v) ->
  optimizers w !! optimizer (concat_base self) = Some groups ->
  ConcatScheduler_call (self, w) =
    (Return tt,
     (mk_ConcatScheduler (concat_base self) (_schedulers_list self)
        ((_schedulers_index self + 1) mod length (_schedulers_list self))%nat
        duration (Some sub'),
      world_after (self_base sub) v
        (set_dicts (fun ds => ds ++ [shared_kwds (concat_base self) ∪ d]) w))).
Proof.
  intros Hc Hneg Hentry Hd Hnew Hstep Hg.
  rewrite ConcatScheduler_call_unfold, Hc.
  destruct (Z.ltb_spec (c - 1) 0) as [_|Hge]; [|lia].
  rewrite next_scheduler_unfold.
  cbn [_schedulers_list _schedulers_index set_next_scheduler_switch concat_base].
  rewrite Hentry, Hd. cbv zeta. rewrite Hnew.
  unfold delegate. cbn [fst snd _scheduler].
  pose proof (scheduler_new_shared _ _ _ _ Hnew) as Hbase.
  assert (Hg' : optimizers (set_dicts (fun ds => ds ++ [shared_kwds (concat_base self) ∪ d]) w)
                  !! optimizer (self_base sub) = Some groups).
  { rewrite Hbase. exact Hg. }
  rewrite (scheduler_call_returns sub sub' v _ groups Hstep Hg'). reflexivity.
Qed.

Lemma sched_iter_S_inv (i : nat) (s s' : scheduler) :
  sched_iter (S i) s = Return s' ->
  exists s1 v, sched_iter i s = Return s1 /\ sched_step s1 = Return (s', v) /\
               sched_value i s = Return v.
Proof.
  unfold sched_value. cbn [sched_iter].
  destruct (sched_iter i s) as [s1|e] eqn:H1; cbn [obind]; [|discriminate].
  destruct (sched_step s1) as [[s2 v]|e] eqn:H2; cbn [obind fst snd]; [|discriminate].
  intros [= <-]. exists s1, v. split; [reflexivity|]. split; [exact H2|reflexivity].
Qed.

Lemma mod_succ (n p : Z) :
  (0 <= n)%Z -> (0 < p)%Z ->
  ((n + 1) mod p = if (n mod p + 1 <? p) then n mod p + 1 else 0)%Z.
Proof.
  intros Hn Hp.
  pose proof (Z.mod_pos_bound n p Hp) as Hr.
  pose proof (Z.div_mod n p ltac:(lia)) as Hdiv.
  destruct (Z.ltb_spec (n mod p + 1) p) as [Hlt|Hge].
  - symmetry. apply (Z.mod_unique_pos _ _ (n / p)); lia.
  - symmetry. apply (Z.mod_unique_pos _ _ (n / p + 1)); lia.
Qed.

Lemma extends_world_after (w w' : world) (o : nat) (p : ParamScheduler) (v : R) :
  optimizer p = o ->
  extends w w' o -> extends w (world_after p v w') o.
Proof.
  intros Ho (Hd & Hlen & g & Hg). unfold extends. rewrite world_after_dicts.
  split; [exact Hd|]. split; [exact Hlen|].
  rewrite <- Ho in *. eexists. apply world_after_optimizers, Hg.
Qed.

Lemma extends_snoc (w w' : world) (o : nat) (d : gmap string pyval) :
  extends w w' o -> extends w (set_dicts (fun ds => ds ++ [d]) w') o.
Proof.
  intros (Hd & Hlen & g & Hg). unfold extends. cbn [set_dicts dicts optimizers].
  split; [|split; [rewrite length_app; lia|eauto]].
  intros a Ha. rewrite lookup_snoc_lt by lia. apply Hd, Ha.
Qed.

(** One more call inside the duration of the active entry. *)
Lemma concat_inside_step (p : ParamScheduler) (entries : list entry) (idx : nat) (c : Z)
    (X0 sub : scheduler) (i : nat) (w0 w : world) :
  (1 <= c)%Z -> never_raises X0 ->
  self_base X0 = ParamScheduler_init (optimizer p) (param_name p) (save_history p) ->
  sched_iter (S i) X0 = Return sub ->
  extends w0 w (optimizer p) ->
  exists sub' v w',
    ConcatScheduler_call (mk_ConcatScheduler p entries idx (Some c) (Some sub), w) =
      (Return tt, (mk_ConcatScheduler p entries idx (Some (c - 1)%Z) (Some sub'), w')) /\
    sched_iter (S (S i)) X0 = Return sub' /\
    sched_value (S i) X0 = Return v /\
    holds_value w' (optimizer p) (param_name p) v /\
    extends w0 w' (optimizer p).
Proof.
  intros Hc Hnr Hbase Hsub Hext.
  destruct (Hnr (S (S i))) as (sub' & Hsub').
  destruct (sched_iter_S_inv _ _ _ Hsub') as (s1 & v & H1 & Hstep & Hval).
  rewrite Hsub in H1. injection H1 as <-.
  destruct (sched_iter_self_base _ _ _ Hsub) as (Ho & Hn & _).
  rewrite Hbase in Ho, Hn. cbn [optimizer param_name ParamScheduler_init] in Ho, Hn.
  pose proof Hext as (_ & _ & g & Hg).
  rewrite <- Ho in Hg.
  exists sub', v, (world_after (self_base sub) v w).
  split; [|split; [exact Hsub'|split; [exact Hval|split]]].
  - exact (ConcatScheduler_call_delegates
             (mk_ConcatScheduler p entries idx (Some c) (Some sub)) w c sub sub' v g
             eq_refl Hc eq_refl Hstep Hg).
  - rewrite <- Ho, <- Hn. apply (world_after_holds _ _ _ g), Hg.
  - apply extends_world_after; assumption.
Qed.

(** The call that switches to the entry at the index. *)
Lemma concat_switch_step (p : ParamScheduler) (entries : list entry) (idx : nat) (c : Z)
    (old : option scheduler) (cls : scheduler_cls) (a : nat) (duration : option Z)
    (d : gmap string pyval) (X0 : scheduler) (w0 w : world) :
  (c <= 0)%Z -> never_raises X0 ->
  entries !! idx = Some (cls, a, duration) ->
  dicts w0 !! a = Some d ->
  scheduler_new cls (shared_kwds p ∪ d) = Return X0 ->
  extends w0 w (optimizer p) ->
  exists sub' v w',
    ConcatScheduler_call (mk_ConcatScheduler p entries idx (Some c) old, w) =
      (Return tt,
       (mk_ConcatScheduler p entries ((idx + 1) mod length entries)%nat duration (Some sub'),
        w')) /\
    sched_iter 1 X0 = Return sub' /\
    sched_value 0 X0 = Return v /\
    holds_value w' (optimizer p) (param_name p) v /\
    extends w0 w' (optimizer p).
Proof.
  intros Hc Hnr Hentry Hd Hnew Hext.
  destruct (Hnr 1%nat) as (sub' & Hsub').
  destruct (sched_iter_S_inv _ _ _ Hsub') as (s1 & v & H1 & Hstep & Hval).
  cbn [sched_iter] in H1. injection H1 as <-.
  pose proof (scheduler_new_shared _ _ _ _ Hnew) as Hbase.
  pose proof Hext as (Hdicts & _ & g & Hg).
  assert (Hd' : dicts w !! a = Some d).
  { rewrite Hdicts; [exact Hd|]. apply lookup_lt_Some in Hd. exact Hd. }
  exists sub', v,
    (world_after (self_base X0) v (set_dicts (fun ds => ds ++ [shared_kwds p ∪ d]) w)).
  split; [|split; [exact Hsub'|split; [exact Hval|split]]].
  - exact (ConcatScheduler_call_switches
             (mk_ConcatScheduler p entries idx (Some c) old) w c cls a duration d X0 sub'
             v g eq_refl Hc Hentry Hd' Hnew Hstep Hg).
  - rewrite Hbase.
    exact (world_after_holds
             (ParamScheduler_init (optimizer p) (param_name p) (save_history p)) v
             (set_dicts (fun ds => ds ++ [shared_kwds p ∪ d]) w) g Hg).
  - apply extends_world_after; [rewrite Hbase; reflexivity|].
    apply extends_snoc, Hext.
Qed.

Section Two_entries.
Variables (o : nat) (name : string) (h : bool).
Variables (clsA clsB : scheduler_cls) (aA aB : nat) (d1 d2 : Z).
Variables (kA kB : gmap string pyval) (A0 B0 : scheduler).
Hypothesis Hd1 : (0 <= d1)%Z.
Hypothesis Hd2 : (0 <= d2)%Z.
Hypothesis HA0 :
  scheduler_new clsA (shared_kwds (ParamScheduler_init o name h) ∪ kA) = Return A0.
Hypothesis HB0 :
  scheduler_new clsB (shared_kwds (ParamScheduler_init o name h) ∪ kB) = Return B0.
Hypothesis HA : never_raises A0.
Hypothesis HB : never_raises B0.

Local Abbreviation entries := [ (clsA, aA, Some d1); (clsB, aB, Some d2) ].
Local Abbreviation p0 := (ParamScheduler_init o name h).

Lemma concat_phase_bounds (n : nat) :
  (0 <= Z.of_nat n mod (d1 + d2 + 2) < d1 + d2 + 2)%Z.
Proof. apply Z.mod_pos_bound. lia. Qed.

Lemma concat_phase_succ (n : nat) :
  (Z.of_nat (S n) mod (d1 + d2 + 2) =
   if Z.of_nat n mod (d1 + d2 + 2) + 1 <? d1 + d2 + 2
   then Z.of_nat n mod (d1 + d2 + 2) + 1 else 0)%Z.
Proof. rewrite Nat2Z.inj_succ, <- Z.add_1_r. apply mod_succ; lia. Qed.

Lemma two_entries_run (w : world) (groups : list (gmap string R)) (n : nat) :
  dicts w !! aA = Some kA -> dicts w !! aB = Some kB ->
  optimizers w !! o = Some groups ->
  exists sub v w',
    run ConcatScheduler_call (S n) (ConcatScheduler_init o name entries h, w) =
      (Return tt, (concat_after p0 entries d1 d2 n sub, w')) /\
    sched_iter (S (snd (concat_phase d1 d2 n)))
               (if fst (concat_phase d1 d2 n) then A0 else B0) = Return sub /\
    sched_value (snd (concat_phase d1 d2 n))
                (if fst (concat_phase d1 d2 n) then A0 else B0) = Return v /\
    holds_value w' o name v /\
    extends w w' o.
Proof.
  intros HkA HkB Hg.
  assert (Hext0 : extends w w o).
  { split; [auto|]. split; [lia|eauto]. }
  assert (HbA := scheduler_new_shared _ _ _ _ HA0).
  assert (HbB := scheduler_new_shared _ _ _ _ HB0).
  induction n as [|n (sub & v & w1 & Hrun & Hsub & _ & _ & Hext)].
  - destruct (concat_switch_step p0 entries 0 0 None clsA aA (Some d1) kA A0 w w)
      as (sub' & v & w' & Hcall & Hsub' & Hval & Hhold & Hext');
      try assumption; try reflexivity; try lia.
    exists sub', v, w'.
    assert (Hph : concat_phase d1 d2 0 = (true, 0%nat)).
    { unfold concat_phase. rewrite Z.mod_0_l by lia.
      destruct (Z.leb_spec 0 d1); [reflexivity|lia]. }
    rewrite Hph. cbn [fst snd].
    split; [|auto].
    rewrite run_S. cbn [run ret]. cbv iota beta.
    etransitivity; [exact Hcall|]. unfold concat_after. rewrite Hph. cbn [fst].
    do 3 f_equal. unfold concat_countdown. rewrite Z.mod_0_l by lia.
    destruct (Z.leb_spec 0 d1); f_equal; lia.
  - rewrite (run_S ConcatScheduler_call (S n)), Hrun.
    pose proof (concat_phase_bounds n) as Hr.
    pose proof (concat_phase_succ n) as Hsucc.
    unfold concat_after in *. unfold concat_phase, concat_countdown in *.
    set (r := (Z.of_nat n mod (d1 + d2 + 2))%Z) in *.
    set (r' := (Z.of_nat (S n) mod (d1 + d2 + 2))%Z) in *.
    destruct (Z.leb_spec r d1) as [HrA|HrB]; cbn [fst snd] in *.
    + (* the first entry is active *)
      destruct (Z.ltb_spec r d1) as [Hin|Hlast].
      * destruct (concat_inside_step p0 entries 1 (d1 - r) A0 sub (Z.to_nat r) w w1)
          as (sub' & v' & w' & Hcall & Hsub' & Hval & Hhold & Hext');
          try assumption; try lia.
        exists sub', v', w'.
        destruct (Z.ltb_spec (r + 1) (d1 + d2 + 2)); [|lia].
        destruct (Z.leb_spec r' d1); [|lia]. cbn [fst snd].
        replace (Z.to_nat r') with (S (Z.to_nat r)) by lia.
        split; [|auto].
        etransitivity; [exact Hcall|]. do 3 f_equal. f_equal. lia.
      * destruct (concat_switch_step p0 entries 1 (d1 - r) (Some sub) clsB aB (Some d2) kB
                    B0 w w1)
          as (sub' & v' & w' & Hcall & Hsub' & Hval & Hhold & Hext');
          try assumption; try reflexivity; try lia.
        exists sub', v', w'.
        destruct (Z.ltb_spec (r + 1) (d1 + d2 + 2)); [|lia].
        destruct (Z.leb_spec r' d1); [lia|]. cbn [fst snd].
        replace (Z.to_nat (r' - d1 - 1)) with 0%nat by lia.
        split; [|auto].
        etransitivity; [exact Hcall|]. do 3 f_equal. f_equal. lia.
    + (* the second entry is active *)
      destruct (Z.ltb_spec (r + 1) (d1 + d2 + 2)) as [Hin|Hlast].
      * destruct (concat_inside_step p0 entries 0 (d1 + d2 + 1 - r) B0 sub
                    (Z.to_nat (r - d1 - 1)) w w1)
          as (sub' & v' & w' & Hcall & Hsub' & Hval & Hhold & Hext');
          try assumption; try lia.
        exists sub', v', w'.
        destruct (Z.leb_spec r' d1); [lia|]. cbn [fst snd].
        replace (Z.to_nat (r' - d1 - 1)) with (S (Z.to_nat (r - d1 - 1))) by lia.
        split; [|auto].
        etransitivity; [exact Hcall|]. do 3 f_equal. f_equal. lia.
      * destruct (concat_switch_step p0 entries 0 (d1 + d2 + 1 - r) (Some sub) clsA aA
                    (Some d1) kA A0 w w1)
          as (sub' & v' & w' & Hcall & Hsub' & Hval & Hhold & Hext');
          try assumption; try reflexivity; try lia.
        exists sub', v', w'.
        destruct (Z.leb_spec r' d1); [|lia]. cbn [fst snd].
        replace (Z.to_nat r') with 0%nat by lia.
        split; [|auto].
        etransitivity; [exact Hcall|]. do 3 f_equal. f_equal. lia.
Qed.

End Two_entries.

Lemma instantiate_never_raises (k : cyclical_cls) (o : nat) (name : string)
    (sv ev s m : Q) (h : bool) :
  has_waveform k = true -> (0 < s)%Q -> (1 <= m)%Q ->
  never_raises (instantiate k o name sv ev s m h).
Proof.
  intros Hk Hs Hm i.
  destruct (sched_iter_grown k s m (instantiate k o name sv ev s m h) i Hk Hs Hm
              (instantiate_grown k o name sv ev s m h Hs)) as (x & Hx & _).
  eauto.
Qed.

Lemma concat_phase_first (d1 d2 : Z) (n : nat) :
  (0 <= d1)%Z -> (0 <= d2)%Z -> (Z.of_nat n <= d1)%Z ->
  concat_phase d1 d2 n = (true, n).
Proof.
  intros H1 H2 Hn. unfold concat_phase. rewrite Z.mod_small by lia.
  destruct (Z.leb_spec (Z.of_nat n) d1); [|lia]. rewrite Nat2Z.id. reflexivity.
Qed.

Lemma concat_phase_second (d1 d2 : Z) (n : nat) :
  (0 <= d1)%Z -> (0 <= d2)%Z -> (d1 + 1 <= Z.of_nat n <= d1 + d2 + 1)%Z ->
  concat_phase d1 d2 n = (false, (n - Z.to_nat (d1 + 1))%nat).
Proof.
  intros H1 H2 Hn. unfold concat_phase. rewrite Z.mod_small by lia.
  destruct (Z.leb_spec (Z.of_nat n) d1); [lia|]. f_equal. lia.
Qed.

Lemma concat_phase_period (d1 d2 : Z) (n : nat) :
  (0 <= d1)%Z -> (0 <= d2)%Z ->
  concat_phase d1 d2 (n + Z.to_nat (d1 + d2 + 2)) = concat_phase d1 d2 n.
Proof.
  intros H1 H2. unfold concat_phase.
  replace (Z.of_nat (n + Z.to_nat (d1 + d2 + 2)))
    with (Z.of_nat n + 1 * (d1 + d2 + 2))%Z by lia.
  rewrite Z.mod_add by lia. reflexivity.
Qed.

(** C3: a [ConcatScheduler] over two entries with finite durations [d1]
    and [d2] switches in the first entry on its first call; calls number 0
    to [d1] go to the first entry's sub-scheduler and write its sequence of
    values, calls [d1 + 1] to [d1 + d2 + 1] to the second entry's; call
    [d1 + d2 + 2] goes to a newly constructed instance of the first entry,
    whose [event_index] starts at 0; and so on with period
    [d1 + d2 + 2]. *)
Theorem concat_two_entries (o : nat) (name : string) (h : bool)
    (clsA clsB : scheduler_cls) (aA aB : nat) (d1 d2 : Z)
    (kA kB : gmap string pyval) (A0 B0 : scheduler) (w : world)
    (groups : list (gmap string R)) :
  (0 <= d1)%Z -> (0 <= d2)%Z ->
  scheduler_new clsA (shared_kwds (ParamScheduler_init o name h) ∪ kA) = Return A0 ->
  scheduler_new clsB (shared_kwds (ParamScheduler_init o name h) ∪ kB) = Return B0 ->
  never_raises A0 -> never_raises B0 ->
  dicts w !! aA = Some kA -> dicts w !! aB = Some kB ->
  optimizers w !! o = Some groups ->
  (forall n : nat, exists sub v w',
     run ConcatScheduler_call (S n)
         (ConcatScheduler_init o name [ (clsA, aA, Some d1); (clsB, aB, Some d2) ] h, w) =
       (Return tt,
        (concat_after (ParamScheduler_init o name h)
           [ (clsA, aA, Some d1); (clsB, aB, Some d2) ] d1 d2 n sub, w')) /\
     sched_iter (S (snd (concat_phase d1 d2 n)))
                (if fst (concat_phase d1 d2 n) then A0 else B0) = Return sub /\
     sched_value (snd (concat_phase d1 d2 n))
                 (if fst (concat_phase d1 d2 n) then A0 else B0) = Return v /\
     holds_value w' o name v) /\
  event_index (self_base A0) = 0%Z /\
  event_index (self_base B0) = 0%Z /\
  (forall n : nat, (Z.of_nat n <= d1)%Z -> concat_phase d1 d2 n = (true, n)) /\
  (forall n : nat, (d1 + 1 <= Z.of_nat n <= d1 + d2 + 1)%Z ->
     concat_phase d1 d2 n = (false, (n - Z.to_nat (d1 + 1))%nat)) /\
  concat_phase d1 d2 (Z.to_nat (d1 + d2 + 2)) = (true, 0%nat) /\
  (forall n : nat,
     concat_phase d1 d2 (n + Z.to_nat (d1 + d2 + 2)) = concat_phase d1 d2 n).
Proof.
  intros Hd1 Hd2 HA0 HB0 HA HB HkA HkB Hg.
  split; [|split; [|split; [|split; [|split; [|split]]]]].
  - intros n.
    destruct (two_entries_run o name h clsA clsB aA aB d1 d2 kA kB A0 B0
                Hd1 Hd2 HA0 HB0 HA HB w groups n HkA HkB Hg)
      as (sub & v & w' & Hrun & Hsub & Hval & Hhold & _).
    eauto 10.
  - rewrite (scheduler_new_shared _ _ _ _ HA0). reflexivity.
  - rewrite (scheduler_new_shared _ _ _ _ HB0). reflexivity.
  - intros n. apply concat_phase_first; assumption.
  - intros n. apply concat_phase_second; assumption.
  - change (Z.to_nat (d1 + d2 + 2)) with (0 + Z.to_nat (d1 + d2 + 2))%nat.
    rewrite concat_phase_period by assumption. apply concat_phase_first; lia.
  - intros n. apply concat_phase_period; assumption.
Qed.

Lemma concat_two_entries_witness :
  exists sub v w',
    run ConcatScheduler_call 4
        (ConcatScheduler_init 0 "lr" example_entries false, example_concat_world) =
      (Return tt,
       (mk_ConcatScheduler (ParamScheduler_init 0 "lr" false) example_entries
          0 (Some 1%Z) (Some sub), w')) /\
    sched_iter 1 (instantiate CosineScheduler_cls 0 "lr" 10 0 4 1 false) = Return sub /\
    sched_value 0 (instantiate CosineScheduler_cls 0 "lr" 10 0 4 1 false) = Return v /\
    holds_value w' 0 "lr" v.
Proof.
  assert (H4 : (0 < 4)%Q) by reflexivity.
  assert (H1 : (1 <= 1)%Q) by discriminate.
  assert (Hd1 : (0 <= 2)%Z) by lia.
  assert (Hd2 : (0 <= 1)%Z) by lia.
  assert (HA0 : scheduler_new (Cyclical_cls LinearScheduler_cls)
                  (shared_kwds (ParamScheduler_init 0 "lr" false) ∪ example_linear_kwds) =
                Return (instantiate LinearScheduler_cls 0 "lr" 1 0 4 1 false))
    by (vm_compute; reflexivity).
  assert (HB0 : scheduler_new (Cyclical_cls CosineScheduler_cls)
                  (shared_kwds (ParamScheduler_init 0 "lr" false) ∪ example_cosine_kwds) =
                Return (instantiate CosineScheduler_cls 0 "lr" 10 0 4 1 false))
    by (vm_compute; reflexivity).
  exact (proj1 (concat_two_entries 0 "lr" false
                  (Cyclical_cls LinearScheduler_cls) (Cyclical_cls CosineScheduler_cls)
                  0 1 2 1 example_linear_kwds example_cosine_kwds _ _
                  example_concat_world [ {[ "lr" := 0.1%R ]} ] Hd1 Hd2 HA0 HB0
                  (instantiate_never_raises LinearScheduler_cls 0 "lr" 1 0 4 1 false
                     eq_refl H4 H1)
                  (instantiate_never_raises CosineScheduler_cls 0 "lr" 10 0 4 1 false
                     eq_refl H4 H1)
                  eq_refl eq_refl eq_refl) 3%nat).
Defined.

(** ** Determinism *)

Lemma alike_world_after (p : ParamScheduler) (v : R) (w1 w2 : world) :
  alike w1 w2 -> alike (world_after p v w1) (world_after p v w2).
Proof.
  intros (Hd & Ho). split.
  - rewrite !world_after_dicts. exact Hd.
  - intros id. unfold world_after.
    destruct (optimizers w1 !! optimizer p) as [g1|] eqn:H1;
      destruct (optimizers w2 !! optimizer p) as [g2|] eqn:H2.
    + assert (Hins : forall (w : world) (g : list (gmap string R)) x,
                optimizers
                  (if save_history p
                   then set_param_history x
                          (set_optimizers <[optimizer p := g]> w)
                   else set_optimizers <[optimizer p := g]> w) =
                <[optimizer p := g]> (optimizers w)).
      { intros w g x. destruct (save_history p); reflexivity. }
      cbv zeta. rewrite !Hins.
      destruct (decide (optimizer p = id)) as [<-|Hne].
      * rewrite !lookup_insert_eq. split; discriminate.
      * rewrite !lookup_insert_ne by exact Hne. apply Ho.
    + apply Ho in H2. congruence.
    + apply Ho in H1. congruence.
    + apply Ho.
Qed.

(** One call in two stores that are alike. *)
Lemma scheduler_call_deterministic (s : scheduler) (w1 w2 : world) :
  alike w1 w2 ->
  fst (scheduler_call (s, w1)) = fst (scheduler_call (s, w2)) /\
  fst (snd (scheduler_call (s, w1))) = fst (snd (scheduler_call (s, w2))) /\
  alike (snd (snd (scheduler_call (s, w1)))) (snd (snd (scheduler_call (s, w2)))) /\
  (fst (scheduler_call (s, w1)) = Return tt ->
   same_value (optimizer (self_base s)) (param_name (self_base s))
     (snd (snd (scheduler_call (s, w1)))) (snd (snd (scheduler_call (s, w2))))).
Proof.
  intros Hal. pose proof Hal as (_ & Ho).
  destruct (scheduler_call_cases s w1)
    as [(s1 & v1 & g1 & Hs1 & Hg1 & E1)|[(s1 & v1 & Hb1 & Hv1 & Hg1 & E1)|(e1 & Hs1 & E1)]];
  destruct (scheduler_call_cases s w2)
    as [(s2 & v2 & g2 & Hs2 & Hg2 & E2)|[(s2 & v2 & Hb2 & Hv2 & Hg2 & E2)|(e2 & Hs2 & E2)]];
  rewrite E1, E2; cbn [fst snd]; try congruence.
  - rewrite Hs1 in Hs2. injection Hs2 as <- <-.
    split; [reflexivity|]. split; [reflexivity|]. split; [apply alike_world_after, Hal|].
    intros _. exists v1. split; eapply world_after_holds; eassumption.
  - apply Ho in Hg2. congruence.
  - apply Ho in Hg1. congruence.
  - rewrite Hb1 in Hb2. injection Hb2 as <-.
    split; [reflexivity|]. split; [reflexivity|]. split; [exact Hal|discriminate].
  - unfold sched_step in Hs2. rewrite Hb1 in Hs2. cbn [obind] in Hs2.
    rewrite Hv1 in Hs2. discriminate.
  - unfold sched_step in Hs1. rewrite Hb2 in Hs1. cbn [obind] in Hs1.
    rewrite Hv2 in Hs1. discriminate.
  - rewrite Hs1 in Hs2. injection Hs2 as <-.
    split; [reflexivity|]. split; [reflexivity|]. split; [exact Hal|discriminate].
Qed.

Lemma delegate_deterministic (self : ConcatScheduler) (w1 w2 : world) :
  alike w1 w2 -> targets_shared self ->
  fst (delegate (self, w1)) = fst (delegate (self, w2)) /\
  fst (snd (delegate (self, w1))) = fst (snd (delegate (self, w2))) /\
  alike (snd (snd (delegate (self, w1)))) (snd (snd (delegate (self, w2)))) /\
  (fst (delegate (self, w1)) = Return tt ->
   same_value (optimizer (concat_base self)) (param_name (concat_base self))
     (snd (snd (delegate (self, w1)))) (snd (snd (delegate (self, w2))))).
Proof.
  intros Hal Ht. unfold delegate, targets_shared in *. cbn [fst snd].
  destruct (_scheduler self) as [sub|].
  - destruct Ht as (Ho & Hn & _).
    destruct (scheduler_call_deterministic sub w1 w2 Hal) as (H1 & H2 & H3 & H4).
    destruct (scheduler_call (sub, w1)) as [r1 [sub1 w1']].
    destruct (scheduler_call (sub, w2)) as [r2 [sub2 w2']].
    cbn [fst snd] in *. subst. rewrite <- Ho, <- Hn. auto.
  - cbn [fst snd]. split; [reflexivity|]. split; [reflexivity|].
    split; [exact Hal|discriminate].
Qed.

Lemma next_scheduler_deterministic (self : ConcatScheduler) (w1 w2 : world) :
  alike w1 w2 ->
  fst (_next_scheduler (self, w1)) = fst (_next_scheduler (self, w2)) /\
  fst (snd (_next_scheduler (self, w1))) = fst (snd (_next_scheduler (self, w2))) /\
  alike (snd (snd (_next_scheduler (self, w1)))) (snd (snd (_next_scheduler (self, w2)))).
Proof.
  intros Hal. pose proof Hal as (Hd & Ho). rewrite !next_scheduler_unfold.
  destruct (_schedulers_list self !! _schedulers_index self) as [[[cls a] duration]|];
    [|cbn [fst snd]; auto].
  rewrite <- Hd. destruct (dicts w1 !! a) as [d|]; [|cbn [fst snd]; auto].
  cbv zeta.
  assert (Hal' : forall x, alike (set_dicts (fun ds => ds ++ [x]) w1)
                                 (set_dicts (fun ds => ds ++ [x]) w2)).
  { intros x. split; [cbn [set_dicts dicts]; rewrite Hd; reflexivity|exact Ho]. }
  destruct (scheduler_new cls _); cbn [fst snd]; auto.
Qed.

Lemma ConcatScheduler_call_deterministic (self : ConcatScheduler) (w1 w2 : world) :
  alike w1 w2 -> targets_shared self ->
  fst (ConcatScheduler_call (self, w1)) = fst (ConcatScheduler_call (self, w2)) /\
  fst (snd (ConcatScheduler_call (self, w1))) =
    fst (snd (ConcatScheduler_call (self, w2))) /\
  alike (snd (snd (ConcatScheduler_call (self, w1))))
        (snd (snd (ConcatScheduler_call (self, w2)))) /\
  (fst (ConcatScheduler_call (self, w1)) = Return tt ->
   same_value (optimizer (concat_base self)) (param_name (concat_base self))
     (snd (snd (ConcatScheduler_call (self, w1))))
     (snd (snd (ConcatScheduler_call (self, w2))))).
Proof.
  intros Hal Ht. rewrite !ConcatScheduler_call_unfold.
  destruct (_next_scheduler_switch self) as [n|];
    [|apply delegate_deterministic; assumption].
  destruct (n - 1 <? 0)%Z;
    [|apply (delegate_deterministic (set_next_scheduler_switch (Some (n - 1)) self));
      assumption].
  destruct (next_scheduler_deterministic (set_next_scheduler_switch (Some (n - 1)) self)
              w1 w2 Hal) as (H1 & H2 & H3).
  destruct (next_scheduler_frame (set_next_scheduler_switch (Some (n - 1)) self) w1 Ht)
    as (Ht1 & Hb1 & _).
  destruct (_next_scheduler (set_next_scheduler_switch (Some (n - 1)) self, w1))
    as [r1 [self1 w1']].
  destruct (_next_scheduler (set_next_scheduler_switch (Some (n - 1)) self, w2))
    as [r2 [self2 w2']].
  cbn [fst snd] in *. subst r2 self2.
  destruct r1 as [[]|e].
  - cbn [set_next_scheduler_switch concat_base] in Hb1. rewrite <- Hb1.
    apply delegate_deterministic; assumption.
  - cbn [fst snd]. split; [reflexivity|]. split; [reflexivity|].
    split; [exact H3|discriminate].
Qed.

Lemma run_scheduler_call_deterministic (n : nat) (s : scheduler) (w1 w2 : world) :
  alike w1 w2 ->
  fst (run scheduler_call n (s, w1)) = fst (run scheduler_call n (s, w2)) /\
  fst (snd (run scheduler_call n (s, w1))) = fst (snd (run scheduler_call n (s, w2))) /\
  alike (snd (snd (run scheduler_call n (s, w1)))) (snd (snd (run scheduler_call n (s, w2)))) /\
  optimizer (self_base (fst (snd (run scheduler_call n (s, w1))))) = optimizer (self_base s) /\
  param_name (self_base (fst (snd (run scheduler_call n (s, w1))))) =
    param_name (self_base s) /\
  ((0 < n)%nat -> fst (run scheduler_call n (s, w1)) = Return tt ->
   same_value (optimizer (self_base s)) (param_name (self_base s))
     (snd (snd (run scheduler_call n (s, w1)))) (snd (snd (run scheduler_call n (s, w2))))).
Proof.
  intros Hal. induction n as [|n (H1 & H2 & H3 & Ho & Hn & _)].
  - cbn [run ret fst snd].
    split; [reflexivity|]. split; [reflexivity|]. split; [exact Hal|].
    split; [reflexivity|]. split; [reflexivity|]. intros H0. lia.
  - rewrite !run_S.
    destruct (run scheduler_call n (s, w1)) as [r1 [s1 w1']].
    destruct (run scheduler_call n (s, w2)) as [r2 [s2 w2']].
    cbn [fst snd] in *. subst r2 s2.
    destruct r1 as [[]|e].
    + destruct (scheduler_call_deterministic s1 w1' w2' H3) as (G1 & G2 & G3 & G4).
      destruct (scheduler_call_frame s1 w1') as (Fo & Fn & _).
      rewrite Fo, Fn, Ho, Hn. rewrite Ho, Hn in G4. auto 10.
    + cbn [fst snd].
      split; [reflexivity|]. split; [reflexivity|]. split; [exact H3|].
      split; [exact Ho|]. split; [exact Hn|]. discriminate.
Qed.

Lemma run_ConcatScheduler_call_deterministic (n : nat) (self : ConcatScheduler)
    (w1 w2 : world) :
  alike w1 w2 -> targets_shared self ->
  fst (run ConcatScheduler_call n (self, w1)) = fst (run ConcatScheduler_call n (self, w2)) /\
  fst (snd (run ConcatScheduler_call n (self, w1))) =
    fst (snd (run ConcatScheduler_call n (self, w2))) /\
  alike (snd (snd (run ConcatScheduler_call n (self, w1))))
        (snd (snd (run ConcatScheduler_call n (self, w2)))) /\
  ((0 < n)%nat -> fst (run ConcatScheduler_call n (self, w1)) = Return tt ->
   same_value (optimizer (concat_base self)) (param_name (concat_base self))
     (snd (snd (run ConcatScheduler_call n (self, w1))))
     (snd (snd (run ConcatScheduler_call n (self, w2))))).
Proof.
  intros Hal Ht. induction n as [|n (H1 & H2 & H3 & _)].
  - cbn [run ret fst snd].
    split; [reflexivity|]. split; [reflexivity|]. split; [exact Hal|]. intros H0. lia.
  - destruct (run_ConcatScheduler_call_frame n self w1 Ht) as (Ht1 & Hb1 & _).
    rewrite !run_S.
    destruct (run ConcatScheduler_call n (self, w1)) as [r1 [s1 w1']].
    destruct (run ConcatScheduler_call n (self, w2)) as [r2 [s2 w2']].
    cbn [fst snd] in *. subst r2 s2.
    destruct r1 as [[]|e].
    + destruct (ConcatScheduler_call_deterministic s1 w1' w2' H3 Ht1) as (G1 & G2 & G3 & G4).
      rewrite Hb1 in G4. auto.
    + cbn [fst snd].
      split; [reflexivity|]. split; [reflexivity|]. split; [exact H3|]. discriminate.
Qed.

(** C9: two newly constructed schedules with the same configuration
    produce the same sequence of values over [n] calls, whatever the
    parameter groups held before and whatever the history is: in two
    stores that are alike, the outcome of the run, the scheduler it leaves
    and the value the groups hold after it are the same.  This holds for
    the schedulers with a waveform and for a [ConcatScheduler]. *)
Theorem schedules_deterministic :
  (forall (s : scheduler) (w1 w2 : world) (n : nat),
     alike w1 w2 ->
     fst (run scheduler_call n (s, w1)) = fst (run scheduler_call n (s, w2)) /\
     fst (snd (run scheduler_call n (s, w1))) = fst (snd (run scheduler_call n (s, w2))) /\
     ((0 < n)%nat -> fst (run scheduler_call n (s, w1)) = Return tt ->
      same_value (optimizer (self_base s)) (param_name (self_base s))
        (snd (snd (run scheduler_call n (s, w1))))
        (snd (snd (run scheduler_call n (s, w2)))))) /\
  (forall (o : nat) (name : string) (schedulers_list : list entry) (h : bool)
          (w1 w2 : world) (n : nat),
     alike w1 w2 ->
     fst (run ConcatScheduler_call n (ConcatScheduler_init o name schedulers_list h, w1)) =
     fst (run ConcatScheduler_call n (ConcatScheduler_init o name schedulers_list h, w2)) /\
     fst (snd (run ConcatScheduler_call n
                 (ConcatScheduler_init o name schedulers_list h, w1))) =
     fst (snd (run ConcatScheduler_call n
                 (ConcatScheduler_init o name schedulers_list h, w2))) /\
     ((0 < n)%nat ->
      fst (run ConcatScheduler_call n (ConcatScheduler_init o name schedulers_list h, w1)) =
        Return tt ->
      same_value o name
        (snd (snd (run ConcatScheduler_call n
                     (ConcatScheduler_init o name schedulers_list h, w1))))
        (snd (snd (run ConcatScheduler_call n
                     (ConcatScheduler_init o name schedulers_list h, w2)))))).
Proof.
  split.
  - intros s w1 w2 n Hal.
    destruct (run_scheduler_call_deterministic n s w1 w2 Hal) as (H1 & H2 & _ & _ & _ & H3).
    auto.
  - intros o name schedulers_list h w1 w2 n Hal.
    destruct (run_ConcatScheduler_call_deterministic n
                (ConcatScheduler_init o name schedulers_list h) w1 w2 Hal I)
      as (H1 & H2 & _ & H3).
    auto.
Qed.

Lemma example_worlds_alike : alike example_world example_world_2.
Proof.
  split; [reflexivity|]. intros id. cbn [example_world example_world_2 optimizers].
  destruct (decide (id = 0%nat)) as [->|Hne].
  - rewrite !lookup_singleton_eq. split; discriminate.
  - rewrite !lookup_singleton_ne by congruence. tauto.
Qed.

Lemma schedules_deterministic_witness :
  fst (snd (run scheduler_call 12 (example_scheduler, example_world))) =
  fst (snd (run scheduler_call 12 (example_scheduler, example_world_2))) /\
  fst (run scheduler_call 12 (example_scheduler, example_world)) =
  fst (run scheduler_call 12 (example_scheduler, example_world_2)).
Proof.
  destruct (proj1 schedules_deterministic example_scheduler example_world example_world_2
              12%nat example_worlds_alike) as (H1 & H2 & _).
  split; [exact H2|exact H1].
Defined.

(** * Further properties *)

(** ** The waveforms at the ends and in the middle of a cycle *)

Lemma div_eucl_double (p : positive) :
  Z.div_eucl (Z.shiftl (Zpos p) 54) (Zpos p~0) = (2 ^ 53, 0)%Z.
Proof.
  assert (E : Z.shiftl (Zpos p) 54 = (Zpos p~0 * 2 ^ 53)%Z).
  { rewrite Z.shiftl_mul_pow2 by lia. change (2 ^ 54)%Z with (2 * 2 ^ 53)%Z.
    rewrite (Pos2Z.inj_xO p). ring. }
  rewrite E.
  pose proof (Z.div_eucl_eq (Zpos p~0 * 2 ^ 53) (Zpos p~0) ltac:(lia)) as H.
  pose proof (Z.mod_pos_bound (Zpos p~0 * 2 ^ 53) (Zpos p~0) ltac:(lia)) as Hb.
  unfold Z.modulo in Hb.
  destruct (Z.div_eucl (Zpos p~0 * 2 ^ 53) (Zpos p~0)) as [q r].
  assert (q = 2 ^ 53)%Z by nia. subst q. f_equal. lia.
Qed.

Lemma int_truediv_half (p : positive) :
  SF2Prim (SFdiv prec emax (S754_finite false p 0) (S754_finite false p~0 0)) = 0.5%float.
Proof.
  unfold SFdiv, SFdiv_core_binary.
  cbn [Zdigits2 digits2_pos].
  replace (Z.pos (digits2_pos p) + 0 - (Z.pos (Pos.succ (digits2_pos p)) + 0))%Z
    with (-1)%Z by lia.
  change (Z.min (fexp prec emax (-1)) (0 - 0)) with (-54)%Z.
  change (0 - 0 - -54)%Z with 54%Z. cbv iota.
  rewrite div_eucl_double.
  reflexivity.
Qed.

(** X2: in the middle of a cycle the linear waveform is the end value
    itself, with no rounding left: for an [int] cycle size [2 * i], at
    event [i > 0], with float start and end values whose difference is
    finite, [LinearScheduler.get_param] returns [end_value].  (Of the end
    value [-0] it can return [0].) *)
Theorem Linear_mid_cycle (c : Binary64.CyclicalScheduler) (s e : float) (i : Z) :
  Binary64.start_value c = Binary64.Float s ->
  Binary64.end_value c = Binary64.Float e ->
  is_finite (s - e) = true ->
  (0 < i)%Z ->
  event_index (Binary64.base c) = i ->
  Binary64.cycle_size c = Binary64.Int (2 * i) ->
  Binary64.cycle_progress c = Return (Binary64.Float 0.5) /\
  exists v,
    Binary64.LinearScheduler_get_param c = Return (Binary64.Float v) /\
    (v = e \/ e = (-0)%float /\ v = 0%float).
Proof.
  intros Hs He Hd Hi Hidx Hz.
  assert (Hp : Binary64.cycle_progress c = Return (Binary64.Float 0.5)).
  { unfold Binary64.cycle_progress. rewrite Hidx, Hz.
    destruct i as [|p|p]; try lia.
    cbn [Binary64.py_truediv Z.mul Pos.mul Z.eqb Binary64.SF_of_int].
    rewrite int_truediv_half. reflexivity. }
  split; [exact Hp|].
  rewrite (LinearScheduler_binary64 c s e 0.5 Hs He Hp).
  eexists. split; [reflexivity|].
  unfold Binary64.spec_Linear. change (abs (0.5 - 0.5)) with 0%float.
  destruct (mul_zero_r (s - e) Hd) as [E|E]; rewrite E.
  - change (0 * 2)%float with 0%float.
    destruct (add_zero_r e 0 (or_introl eq_refl)) as [H|(H1 & _ & H2)]; auto.
  - change (-0 * 2)%float with (-0)%float.
    destruct (add_zero_r e (-0) (or_intror eq_refl)) as [H|(_ & H & _)];
      [auto|discriminate H].
Qed.

Lemma Linear_mid_cycle_witness :
  exists v,
    Binary64.LinearScheduler_get_param
      (Binary64.at_event_index 5 Binary64.example_scheduler) =
      Return (Binary64.Float v) /\
    (v = 0.01%float \/ 0.01%float = (-0)%float /\ v = 0%float).
Proof.
  exact (proj2 (Linear_mid_cycle (Binary64.at_event_index 5 Binary64.example_scheduler)
                  0.1 0.01 5 eq_refl eq_refl eq_refl ltac:(lia) eq_refl eq_refl)).
Defined.

(** X3: a cosine schedule starts every cycle at the start value: with
    float start and end values whose half difference is finite, a cycle
    size above 0 and an [np.cos] that is 1 at 0,
    [CosineScheduler.get_param] returns [start_value] at [event_index] 0,
    at the first event and at the first event after the reset block has
    run.  (Of the start value [-0] it can return [0].) *)
Theorem Cosine_cycle_start (np_cos : float -> float) (c : Binary64.CyclicalScheduler)
    (s e : float) :
  np_cos 0%float = 1%float ->
  Binary64.start_value c = Binary64.Float s ->
  Binary64.end_value c = Binary64.Float e ->
  is_finite ((e - s) / 2) = true ->
  (event_index (Binary64.base c) = 0%Z -> Binary64.positive (Binary64.cycle_size c) ->
   exists v,
     Binary64.get_param np_cos CosineScheduler_cls c = Return (Binary64.Float v) /\
     (v = s \/ s = (-0)%float /\ v = 0%float)) /\
  (forall c', Binary64.cycle_reset c = (Return tt, c') ->
     Binary64.positive (Binary64.cycle_size c') ->
     exists v,
       Binary64.get_param np_cos CosineScheduler_cls c' = Return (Binary64.Float v) /\
       (v = s \/ s = (-0)%float /\ v = 0%float)).
Proof.
  intros Hcos Hs He Hh.
  assert (Hstart : forall c0,
            Binary64.start_value c0 = Binary64.Float s ->
            Binary64.end_value c0 = Binary64.Float e ->
            event_index (Binary64.base c0) = 0%Z ->
            Binary64.positive (Binary64.cycle_size c0) ->
            exists v,
              Binary64.get_param np_cos CosineScheduler_cls c0 =
                Return (Binary64.Float v) /\
              (v = s \/ s = (-0)%float /\ v = 0%float)).
  { intros c0 Hs0 He0 Hi Hz. eexists. split.
    - cbn [Binary64.get_param].
      apply (CosineScheduler_binary64 np_cos c0 s e 0 Hs0 He0).
      apply cycle_progress_start; assumption.
    - apply spec_Cosine_start; assumption. }
  split.
  - intros Hi Hz. apply Hstart; assumption.
  - intros c'. unfold Binary64.cycle_reset.
    destruct (Binary64.py_mul (Binary64.cycle_size c) (Binary64.cycle_mult c)) as [z|x];
      [|discriminate].
    intros [= <-] Hz. apply Hstart; [exact Hs|exact He|reflexivity|exact Hz].
Qed.

Lemma Cosine_cycle_start_witness :
  exists v,
    Binary64.get_param Binary64.example_cos CosineScheduler_cls
      Binary64.example_scheduler = Return (Binary64.Float v) /\
    (v = 0.1%float \/ 0.1%float = (-0)%float /\ v = 0%float).
Proof.
  assert (Hp : Binary64.positive (Binary64.cycle_size Binary64.example_scheduler))
    by (cbn; lia).
  exact (proj1 (Cosine_cycle_start Binary64.example_cos Binary64.example_scheduler
                  0.1 0.01 eq_refl eq_refl eq_refl eq_refl)
               eq_refl Hp).
Defined.

(** ** Counting events *)





(** ** A constant cycle *)






(** ** The store after a run *)

Lemma written_written (name : string) (v v' : R) (groups : list (gmap string R)) :
  written name v' (written name v groups) = written name v' groups.
Proof.
  unfold written. rewrite <- list_fmap_compose. apply list_fmap_ext.
  intros i pg _. cbn. apply insert_insert_eq.
Qed.

Lemma length_written (name : string) (v : R) (groups : list (gmap string R)) :
  length (written name v groups) = length groups.
Proof. unfold written. apply length_fmap. Qed.

(** The first call of a run. *)
Lemma world_after_first (p : ParamScheduler) (groups : list (gmap string R)) (v : R)
    (w : world) :
  optimizers w !! optimizer p = Some groups ->
  world_after p v w = world_after_run p groups v [replicate (length groups) v] w.
Proof.
  intros Hg. unfold world_after, world_after_run. rewrite Hg.
  destruct (save_history p); reflexivity.
Qed.

(** One more call of a run. *)
Lemma world_after_next (p : ParamScheduler) (groups : list (gmap string R)) (v v' : R)
    (snaps : list (list R)) (w : world) :
  world_after p v' (world_after_run p groups v snaps w) =
  world_after_run p groups v' (snaps ++ [replicate (length groups) v']) w.
Proof.
  unfold world_after, world_after_run. cbn [optimizers dicts param_history].
  rewrite lookup_insert_eq. cbv zeta.
  unfold set_param_history, set_optimizers, history_after.
  cbn [optimizers dicts param_history].
  rewrite insert_insert_eq, written_written, length_written.
  destruct (save_history p); [|reflexivity].
  cbn [default from_option Datatypes.id].
  rewrite lookup_insert_eq, insert_insert_eq. cbn [default from_option Datatypes.id].
  rewrite <- app_assoc. reflexivity.
Qed.

Lemma run_world (n : nat) (s : scheduler) (w : world) (groups : list (gmap string R))
    (vs : list R) :
  optimizers w !! optimizer (self_base s) = Some groups ->
  sched_trace (S n) s = Return vs ->
  exists s' vs0 v,
    vs = vs0 ++ [v] /\ length vs = S n /\
    sched_iter (S n) s = Return s' /\
    run scheduler_call (S n) (s, w) =
      (Return tt,
       (s', world_after_run (self_base s) groups v (map (replicate (length groups)) vs) w)).
Proof.
  intros Hg. revert vs. induction n as [|n IH]; intros vs Hvs.
  - cbn [sched_trace obind] in Hvs.
    destruct (sched_value 0 s) as [v|e] eqn:Hv; cbn [obind] in Hvs; [|discriminate].
    injection Hvs as <-.
    destruct (sched_iter_S_value _ _ _ Hv) as (s' & Hs').
    destruct (sched_iter_S_inv _ _ _ Hs') as (s1 & v1 & H1 & Hstep & Hv1).
    cbn [sched_iter] in H1. injection H1 as <-.
    rewrite Hv in Hv1. injection Hv1 as <-.
    exists s', [], v. split; [reflexivity|]. split; [reflexivity|]. split; [exact Hs'|].
    rewrite run_S. cbn [run ret]. cbv iota beta.
    rewrite (scheduler_call_returns s s' v w groups Hstep Hg).
    rewrite (world_after_first _ groups v w Hg). reflexivity.
  - cbn [sched_trace] in Hvs.
    change (obind (sched_trace (S n) s)
              (fun vs0 => obind (sched_value (S n) s) (fun v => Return (vs0 ++ [v]))) =
            Return vs) in Hvs.
    destruct (sched_trace (S n) s) as [vs1|e] eqn:Ht; cbn [obind] in Hvs; [|discriminate].
    destruct (sched_value (S n) s) as [v'|e] eqn:Hv; cbn [obind] in Hvs; [|discriminate].
    injection Hvs as <-.
    destruct (IH vs1 eq_refl) as (s1 & vs0 & v & -> & Hlen & Hs1 & Hrun).
    destruct (sched_iter_S_value _ _ _ Hv) as (s' & Hs').
    destruct (sched_iter_S_inv _ _ _ Hs') as (s1' & v1 & H1 & Hstep & Hv1).
    rewrite Hs1 in H1. injection H1 as <-.
    rewrite Hv in Hv1. injection Hv1 as <-.
    destruct (sched_iter_self_base _ _ _ Hs1) as (Ho & Hn & Hh).
    exists s', (vs0 ++ [v]), v'. split; [reflexivity|].
    split; [rewrite length_app, Hlen; simpl; lia|]. split; [exact Hs'|].
    rewrite (run_S scheduler_call (S n)), Hrun.
    assert (Hg1 : optimizers
                    (world_after_run (self_base s) groups v
                       (map (replicate (length groups)) (vs0 ++ [v])) w)
                    !! optimizer (self_base s1) =
                  Some (written (param_name (self_base s)) v groups)).
    { rewrite Ho. cbn [world_after_run optimizers]. apply lookup_insert_eq. }
    rewrite (scheduler_call_returns s1 s' v' _ _ Hstep Hg1).
    assert (Hb : world_after (self_base s1) v' = world_after (self_base s) v').
    { unfold world_after. rewrite Ho, Hn, Hh. reflexivity. }
    rewrite Hb, world_after_next. rewrite (map_app _ (vs0 ++ [v]) [v']). reflexivity.
Qed.

Lemma sched_trace_length (n : nat) (s : scheduler) (vs : list R) :
  sched_trace n s = Return vs -> length vs = n.
Proof.
  revert vs. induction n as [|n IH]; intros vs; cbn [sched_trace].
  - intros [= <-]. reflexivity.
  - destruct (sched_trace n s) as [vs0|e]; cbn [obind]; [|discriminate].
    destruct (sched_value n s) as [v|e]; cbn [obind]; [|discriminate].
    intros [= <-]. rewrite length_app, (IH vs0 eq_refl). simpl. lia.
Qed.

(** X6: a run of calls changes, in the optimizers, one option of one
    optimizer and nothing else: after [n >= 1] calls the parameter
    groups of the scheduler's optimizer are the groups from before the run
    with the value of the last call under [param_name]; their number,
    their other options, the other optimizers and the dictionaries are as
    they were. *)
Theorem run_writes_one_option (n : nat) (s : scheduler) (w : world)
    (groups : list (gmap string R)) (vs : list R) :
  optimizers w !! optimizer (self_base s) = Some groups ->
  sched_trace (S n) s = Return vs ->
  exists s' w' v,
    run scheduler_call (S n) (s, w) = (Return tt, (s', w')) /\
    last vs = Some v /\
    optimizers w' =
      <[optimizer (self_base s) :=
          (fun pg => <[param_name (self_base s) := v]> pg) <$> groups]> (optimizers w) /\
    (forall id, id <> optimizer (self_base s) -> optimizers w' !! id = optimizers w !! id) /\
    (exists groups', optimizers w' !! optimizer (self_base s) = Some groups' /\
       length groups' = length groups /\
       forall i pg pg' other,
         groups !! i = Some pg -> groups' !! i = Some pg' ->
         other <> param_name (self_base s) -> pg' !! other = pg !! other) /\
    dicts w' = dicts w.
Proof.
  intros Hg Hvs.
  destruct (run_world n s w groups vs Hg Hvs) as (s' & vs0 & v & -> & _ & _ & Hrun).
  eexists s', _, v. split; [exact Hrun|].
  split; [apply last_snoc|]. cbn [world_after_run optimizers dicts].
  split; [reflexivity|]. split; [|split; [|reflexivity]].
  - intros id Hne. apply lookup_insert_ne. congruence.
  - eexists. split; [apply lookup_insert_eq|]. split; [apply length_written|].
    intros i pg pg' other Hpg Hpg' Hne. unfold written in Hpg'.
    rewrite list_lookup_fmap, Hpg in Hpg'. cbn in Hpg'. injection Hpg' as <-.
    apply lookup_insert_ne. congruence.
Qed.

Lemma run_writes_one_option_witness :
  exists s' w' v,
    run scheduler_call 1 (example_scheduler, example_world_2) = (Return tt, (s', w')) /\
    optimizers w' =
      {[ 0%nat := [ {[ "lr" := v ]}; {[ "lr" := v; "momentum" := 0.9%R ]} ] ]}.
Proof.
  destruct (run_writes_one_option 0 example_scheduler example_world_2
              [ {[ "lr" := 5%R ]}; {[ "lr" := 7%R; "momentum" := 0.9%R ]} ]
              [ Q2R (0.01 + (0.1 - 0.01) * Qabs (inject_Z 0 / 10 - 0.5) * 2) ]
              eq_refl eq_refl)
    as (s' & w' & v & Hrun & Hlast & Hopt & _).
  exists s', w', v. split; [exact Hrun|]. rewrite Hopt.
  cbn [example_world_2 optimizers example_scheduler self_base base CyclicalScheduler_init
       ParamScheduler_init optimizer param_name fmap list_fmap].
  rewrite insert_singleton_eq. reflexivity.
Defined.

(** X7: the history is a faithful log of a run.  With [save_history]
    set, after [n >= 1] calls the entry of [param_name] is what it was
    before the run (empty when there was none) followed by one snapshot
    for each call, in the order of the calls, each holding the value of
    its call once for every parameter group; the entries of other names
    are untouched.  Without [save_history] the history is not touched,
    and not created. *)
Theorem history_logs_run (n : nat) (s : scheduler) (w : world)
    (groups : list (gmap string R)) (vs : list R) :
  optimizers w !! optimizer (self_base s) = Some groups ->
  sched_trace (S n) s = Return vs ->
  exists s' w',
    run scheduler_call (S n) (s, w) = (Return tt, (s', w')) /\
    length vs = S n /\
    (save_history (self_base s) = false -> param_history w' = param_history w) /\
    (save_history (self_base s) = true ->
     exists h', param_history w' = Some h' /\
       h' !! param_name (self_base s) =
         Some (default [] (default ∅ (param_history w) !! param_name (self_base s)) ++
               map (replicate (length groups)) vs) /\
       forall other, other <> param_name (self_base s) ->
                     h' !! other = default ∅ (param_history w) !! other).
Proof.
  intros Hg Hvs.
  destruct (run_world n s w groups vs Hg Hvs) as (s' & vs0 & v & -> & Hlen & _ & Hrun).
  eexists s', _. split; [exact Hrun|]. split; [exact Hlen|].
  cbn [world_after_run param_history]. split.
  - intros ->. reflexivity.
  - intros ->. eexists. split; [reflexivity|]. split.
    + apply lookup_insert_eq.
    + intros other Hne. apply lookup_insert_ne. congruence.
Qed.

Lemma history_logs_run_witness :
  exists s' w' h' v,
    run scheduler_call 1
        (instantiate LinearScheduler_cls 0 "lr" 0.1 0.01 10 1 true, example_world_2) =
      (Return tt, (s', w')) /\
    param_history w' = Some h' /\
    h' !! "lr" = Some [ [1%R]; [v; v] ].
Proof.
  destruct (history_logs_run 0 (instantiate LinearScheduler_cls 0 "lr" 0.1 0.01 10 1 true)
              example_world_2
              [ {[ "lr" := 5%R ]}; {[ "lr" := 7%R; "momentum" := 0.9%R ]} ]
              [ Q2R (0.01 + (0.1 - 0.01) * Qabs (inject_Z 0 / 10 - 0.5) * 2) ]
              eq_refl eq_refl)
    as (s' & w' & Hrun & _ & _ & Hhist).
  destruct (Hhist eq_refl) as (h' & Hh' & Hlr & _).
  exists s', w', h'. eexists. split; [exact Hrun|]. split; [exact Hh'|].
  etransitivity; [exact Hlr|]. reflexivity.
Defined.

(** ** Any list of entries *)

(** A call while the duration is [None] goes to the active
    sub-scheduler, and nothing counts down. *)
Lemma concat_unbounded_step (p : ParamScheduler) (entries : list entry) (idx : nat)
    (X0 sub : scheduler) (i : nat) (w0 w : world) :
  never_raises X0 ->
  self_base X0 = ParamScheduler_init (optimizer p) (param_name p) (save_history p) ->
  sched_iter (S i) X0 = Return sub ->
  extends w0 w (optimizer p) ->
  exists sub' v w',
    ConcatScheduler_call (mk_ConcatScheduler p entries idx None (Some sub), w) =
      (Return tt, (mk_ConcatScheduler p entries idx None (Some sub'), w')) /\
    sched_iter (S (S i)) X0 = Return sub' /\
    sched_value (S i) X0 = Return v /\
    holds_value w' (optimizer p) (param_name p) v /\
    extends w0 w' (optimizer p).
Proof.
  intros Hnr Hbase Hsub Hext.
  destruct (Hnr (S (S i))) as (sub' & Hsub').
  destruct (sched_iter_S_inv _ _ _ Hsub') as (s1 & v & H1 & Hstep & Hval).
  rewrite Hsub in H1. injection H1 as <-.
  destruct (sched_iter_self_base _ _ _ Hsub) as (Ho & Hn & _).
  rewrite Hbase in Ho, Hn. cbn [optimizer param_name ParamScheduler_init] in Ho, Hn.
  pose proof Hext as (_ & _ & g & Hg).
  rewrite <- Ho in Hg.
  exists sub', v, (world_after (self_base sub) v w).
  split; [|split; [exact Hsub'|split; [exact Hval|split]]].
  - rewrite ConcatScheduler_call_unfold. cbn [_next_scheduler_switch].
    unfold delegate. cbn [fst snd _scheduler].
    rewrite (scheduler_call_returns sub sub' v w g Hstep Hg). reflexivity.
  - rewrite <- Ho, <- Hn. apply (world_after_holds _ _ _ g), Hg.
  - apply extends_world_after; assumption.
Qed.

Lemma serving_in_range (entries : list entry) (n : nat) :
  entries <> [] -> (fst (serving entries n) < length entries)%nat.
Proof.
  intros Hne. assert (Hlen : (0 < length entries)%nat).
  { destruct entries; [contradiction|simpl; lia]. }
  induction n as [|n IH]; [exact Hlen|].
  cbn [serving]. unfold serving_step.
  destruct (entries !! fst (serving entries n)) as [[[cls a] [d|]]|]; [| |exact IH].
  - destruct (Z.of_nat _ <? d)%Z; cbn [fst]; [exact IH|].
    apply Nat.mod_upper_bound. lia.
  - exact IH.
Qed.

(** The run of a [ConcatScheduler] follows [serving]. *)
Lemma concat_run_serving (o : nat) (name : string) (h : bool) (entries : list entry)
    (w : world) (groups : list (gmap string R)) (n : nat) :
  entries <> [] ->
  entries_ready (ParamScheduler_init o name h) entries w ->
  optimizers w !! o = Some groups ->
  exists cls a duration kwds X sub v w',
    entries !! fst (serving entries n) = Some (cls, a, duration) /\
    dicts w !! a = Some kwds /\
    scheduler_new cls (shared_kwds (ParamScheduler_init o name h) ∪ kwds) = Return X /\
    run ConcatScheduler_call (S n) (ConcatScheduler_init o name entries h, w) =
      (Return tt,
       (mk_ConcatScheduler (ParamScheduler_init o name h) entries
          ((fst (serving entries n) + 1) mod length entries)%nat
          (countdown_after duration (snd (serving entries n))) (Some sub), w')) /\
    sched_iter (S (snd (serving entries n))) X = Return sub /\
    sched_value (snd (serving entries n)) X = Return v /\
    holds_value w' o name v /\
    extends w w' o.
Proof.
  intros Hne Hready Hg.
  assert (Hext0 : extends w w o).
  { split; [auto|]. split; [lia|eauto]. }
  assert (Hentry : forall idx, (idx < length entries)%nat ->
            exists cls a duration kwds X,
              entries !! idx = Some (cls, a, duration) /\ dicts w !! a = Some kwds /\
              scheduler_new cls (shared_kwds (ParamScheduler_init o name h) ∪ kwds) =
                Return X /\ never_raises X).
  { intros idx Hidx. destruct (lookup_lt_is_Some_2 entries idx Hidx) as [[[cls a] d] He].
    destruct (Hready idx cls a d He) as (kwds & X & Hk & Hnew & Hnr). eauto 10. }
  assert (Hlen : (0 < length entries)%nat).
  { destruct entries; [contradiction|simpl; lia]. }
  induction n as [|n (cls & a & duration & kwds & X & sub & v & w1 &
                      He & Hk & Hnew & Hrun & Hsub & _ & _ & Hext)].
  - destruct (Hentry 0%nat Hlen) as (cls & a & duration & kwds & X & He & Hk & Hnew & Hnr).
    destruct (concat_switch_step (ParamScheduler_init o name h) entries 0 0 None cls a
                duration kwds X w w)
      as (sub' & v & w' & Hcall & Hsub' & Hval & Hhold & Hext');
      try assumption; try lia.
    exists cls, a, duration, kwds, X, sub', v, w'. cbn [serving fst snd].
    split; [exact He|]. split; [exact Hk|]. split; [exact Hnew|].
    split; [|auto].
    rewrite run_S. cbn [run ret]. cbv iota beta.
    etransitivity; [exact Hcall|]. do 3 f_equal.
    destruct duration as [d|]; cbn [countdown_after]; [|reflexivity].
    f_equal. simpl. lia.
  - rewrite (run_S ConcatScheduler_call (S n)), Hrun.
    pose proof (serving_in_range entries n Hne) as Hidx.
    destruct (serving entries n) as [idx local] eqn:Hserv. cbn [fst snd] in *.
    assert (Hnr : never_raises X).
    { destruct (Hready idx cls a duration He) as (kwds' & X' & Hk' & Hnew' & Hnr').
      rewrite Hk in Hk'. injection Hk' as <-. rewrite Hnew in Hnew'.
      injection Hnew' as <-. exact Hnr'. }
    pose proof (scheduler_new_shared _ _ _ _ Hnew) as Hbase.
    cbn [serving]. rewrite Hserv. unfold serving_step. cbn [fst snd]. rewrite He.
    destruct duration as [d|]; cbn [countdown_after].
    + destruct (Z.ltb_spec (Z.of_nat local) d) as [Hin|Hout].
      * destruct (concat_inside_step (ParamScheduler_init o name h) entries
                    ((idx + 1) mod length entries)%nat (d - Z.of_nat local) X sub local w w1)
          as (sub' & v' & w' & Hcall & Hsub' & Hval & Hhold & Hext');
          try assumption; try lia.
        exists cls, a, (Some d), kwds, X, sub', v', w'. cbn [fst snd countdown_after].
        split; [exact He|]. split; [exact Hk|]. split; [exact Hnew|].
        split; [|auto].
        etransitivity; [exact Hcall|]. do 3 f_equal. f_equal. lia.
      * assert (Hidx' : ((idx + 1) mod length entries < length entries)%nat).
        { apply Nat.mod_upper_bound. lia. }
        destruct (Hentry _ Hidx')
          as (cls' & a' & duration' & kwds' & X' & He' & Hk' & Hnew' & Hnr').
        destruct (concat_switch_step (ParamScheduler_init o name h) entries
                    ((idx + 1) mod length entries)%nat (d - Z.of_nat local) (Some sub)
                    cls' a' duration' kwds' X' w w1)
          as (sub' & v' & w' & Hcall & Hsub' & Hval & Hhold & Hext');
          try assumption; try lia.
        exists cls', a', duration', kwds', X', sub', v', w'. cbn [fst snd].
        split; [exact He'|]. split; [exact Hk'|]. split; [exact Hnew'|].
        split; [|auto].
        etransitivity; [exact Hcall|]. do 3 f_equal.
        destruct duration' as [d'|]; cbn [countdown_after]; [|reflexivity].
        f_equal. simpl. lia.
    + destruct (concat_unbounded_step (ParamScheduler_init o name h) entries
                  ((idx + 1) mod length entries)%nat X sub local w w1)
        as (sub' & v' & w' & Hcall & Hsub' & Hval & Hhold & Hext');
        try assumption.
      exists cls, a, None, kwds, X, sub', v', w'. cbn [fst snd countdown_after].
      split; [exact He|]. split; [exact Hk|]. split; [exact Hnew|].
      split; [exact Hcall|]. auto.
Qed.

Lemma example_entries_ready :
  entries_ready (ParamScheduler_init 0 "lr" false) example_entries example_concat_world.
Proof.
  assert (H4 : (0 < 4)%Q) by reflexivity.
  assert (H1 : (1 <= 1)%Q) by discriminate.
  intros idx cls a duration He.
  destruct idx as [|[|idx]]; cbn in He; [| |discriminate]; injection He as <- <- <-.
  - exists example_linear_kwds, (instantiate LinearScheduler_cls 0 "lr" 1 0 4 1 false).
    split; [reflexivity|]. split; [vm_compute; reflexivity|].
    apply instantiate_never_raises; auto.
  - exists example_cosine_kwds, (instantiate CosineScheduler_cls 0 "lr" 10 0 4 1 false).
    split; [reflexivity|]. split; [vm_compute; reflexivity|].
    apply instantiate_never_raises; auto.
Qed.

(** X8: a [ConcatScheduler] over any non-empty list of entries gives
    each entry in turn, the first one again after the last: the entry
    serves one call more than its duration (one call when the duration is
    0 or negative, every later call when it is [None]), each time with a
    newly constructed sub-scheduler that starts at event 0 and has the
    optimizer, the parameter name and the history flag of the
    [ConcatScheduler]; the parameter groups hold the value of that
    sub-scheduler.  The entries must be instantiable and their
    sub-schedulers must not raise. *)
Theorem concat_serves_in_turn (o : nat) (name : string) (h : bool) (entries : list entry)
    (w : world) (groups : list (gmap string R)) (n : nat) :
  entries <> [] ->
  entries_ready (ParamScheduler_init o name h) entries w ->
  optimizers w !! o = Some groups ->
  exists cls a duration kwds X sub v w',
    entries !! fst (serving entries n) = Some (cls, a, duration) /\
    dicts w !! a = Some kwds /\
    scheduler_new cls (shared_kwds (ParamScheduler_init o name h) ∪ kwds) = Return X /\
    self_base X = ParamScheduler_init o name h /\
    run ConcatScheduler_call (S n) (ConcatScheduler_init o name entries h, w) =
      (Return tt,
       (mk_ConcatScheduler (ParamScheduler_init o name h) entries
          ((fst (serving entries n) + 1) mod length entries)%nat
          (countdown_after duration (snd (serving entries n))) (Some sub), w')) /\
    sched_iter (S (snd (serving entries n))) X = Return sub /\
    sched_value (snd (serving entries n)) X = Return v /\
    holds_value w' o name v.
Proof.
  intros Hne Hready Hg.
  destruct (concat_run_serving o name h entries w groups n Hne Hready Hg)
    as (cls & a & duration & kwds & X & sub & v & w' &
        He & Hk & Hnew & Hrun & Hsub & Hval & Hhold & _).
  exists cls, a, duration, kwds, X, sub, v, w'.
  split; [exact He|]. split; [exact Hk|]. split; [exact Hnew|].
  split; [exact (scheduler_new_shared _ _ _ _ Hnew)|]. auto.
Qed.

Lemma concat_serves_in_turn_witness :
  exists cls a duration kwds X sub v w',
    example_entries !! fst (serving example_entries 7) = Some (cls, a, duration) /\
    dicts example_concat_world !! a = Some kwds /\
    scheduler_new cls (shared_kwds (ParamScheduler_init 0 "lr" false) ∪ kwds) = Return X /\
    self_base X = ParamScheduler_init 0 "lr" false /\
    run ConcatScheduler_call 8
        (ConcatScheduler_init 0 "lr" example_entries false, example_concat_world) =
      (Return tt,
       (mk_ConcatScheduler (ParamScheduler_init 0 "lr" false) example_entries
          ((fst (serving example_entries 7) + 1) mod length example_entries)%nat
          (countdown_after duration (snd (serving example_entries 7))) (Some sub), w')) /\
    sched_iter (S (snd (serving example_entries 7))) X = Return sub /\
    sched_value (snd (serving example_entries 7)) X = Return v /\
    holds_value w' 0 "lr" v.
Proof.
  assert (Hne : example_entries <> []) by discriminate.
  exact (concat_serves_in_turn 0 "lr" false example_entries example_concat_world
           [ {[ "lr" := 0.1%R ]} ] 7 Hne example_entries_ready eq_refl).
Defined.

(** *** An entry without end *)

Lemma serving_unbounded (entries : list entry) (n0 : nat) (cls : scheduler_cls) (a : nat)
    (m : nat) :
  entries !! fst (serving entries n0) = Some (cls, a, None) ->
  serving entries (n0 + m) = (fst (serving entries n0), (snd (serving entries n0) + m)%nat).
Proof.
  intros He. induction m as [|m IH].
  - rewrite !Nat.add_0_r. destruct (serving entries n0); reflexivity.
  - rewrite Nat.add_succ_r. cbn [serving]. rewrite IH. unfold serving_step.
    cbn [fst snd]. rewrite He. f_equal. lia.
Qed.

(** X9: an entry whose duration is [None] is never left: once it
    serves a call it serves every later call, with the same
    sub-scheduler going on, and the countdown stays [None]. *)
Theorem unbounded_entry_stays (o : nat) (name : string) (h : bool) (entries : list entry)
    (w : world) (groups : list (gmap string R)) (n0 m : nat)
    (cls : scheduler_cls) (a : nat) (kwds : gmap string pyval) (X : scheduler) :
  entries <> [] ->
  entries_ready (ParamScheduler_init o name h) entries w ->
  optimizers w !! o = Some groups ->
  entries !! fst (serving entries n0) = Some (cls, a, None) ->
  dicts w !! a = Some kwds ->
  scheduler_new cls (shared_kwds (ParamScheduler_init o name h) ∪ kwds) = Return X ->
  serving entries (n0 + m) = (fst (serving entries n0), (snd (serving entries n0) + m)%nat) /\
  exists sub v w',
    run ConcatScheduler_call (S (n0 + m)) (ConcatScheduler_init o name entries h, w) =
      (Return tt,
       (mk_ConcatScheduler (ParamScheduler_init o name h) entries
          ((fst (serving entries n0) + 1) mod length entries)%nat None (Some sub), w')) /\
    sched_iter (S (snd (serving entries n0) + m)) X = Return sub /\
    sched_value (snd (serving entries n0) + m) X = Return v /\
    holds_value w' o name v.
Proof.
  intros Hne Hready Hg He Hk Hnew.
  pose proof (serving_unbounded entries n0 cls a m He) as Hserv.
  split; [exact Hserv|].
  destruct (concat_run_serving o name h entries w groups (n0 + m) Hne Hready Hg)
    as (cls' & a' & duration' & kwds' & X' & sub & v & w' &
        He' & Hk' & Hnew' & Hrun & Hsub & Hval & Hhold & _).
  rewrite Hserv in *. cbn [fst snd] in *.
  rewrite He in He'. injection He' as <- <- <-.
  rewrite Hk in Hk'. injection Hk' as <-.
  rewrite Hnew in Hnew'. injection Hnew' as <-.
  exists sub, v, w'. auto.
Qed.

Lemma unbounded_entry_stays_witness :
  exists sub v w',
    run ConcatScheduler_call 21
        (ConcatScheduler_init 0 "lr"
           [ (Cyclical_cls LinearScheduler_cls, 0%nat, None) ] false,
         example_concat_world) =
      (Return tt,
       (mk_ConcatScheduler (ParamScheduler_init 0 "lr" false)
          [ (Cyclical_cls LinearScheduler_cls, 0%nat, None) ] 0 None (Some sub), w')) /\
    sched_iter 21 (instantiate LinearScheduler_cls 0 "lr" 1 0 4 1 false) = Return sub /\
    sched_value 20 (instantiate LinearScheduler_cls 0 "lr" 1 0 4 1 false) = Return v /\
    holds_value w' 0 "lr" v.
Proof.
  assert (H4 : (0 < 4)%Q) by reflexivity.
  assert (H1 : (1 <= 1)%Q) by discriminate.
  assert (Hne : [ (Cyclical_cls LinearScheduler_cls, 0%nat, @None Z) ] <> []) by discriminate.
  assert (Hnew : scheduler_new (Cyclical_cls LinearScheduler_cls)
                   (shared_kwds (ParamScheduler_init 0 "lr" false) ∪ example_linear_kwds) =
                 Return (instantiate LinearScheduler_cls 0 "lr" 1 0 4 1 false))
    by (vm_compute; reflexivity).
  assert (Hready : entries_ready (ParamScheduler_init 0 "lr" false)
                     [ (Cyclical_cls LinearScheduler_cls, 0%nat, None) ]
                     example_concat_world).
  { intros idx cls a duration He.
    destruct idx as [|idx]; cbn in He; [|discriminate]. injection He as <- <- <-.
    exists example_linear_kwds, (instantiate LinearScheduler_cls 0 "lr" 1 0 4 1 false).
    split; [reflexivity|]. split; [exact Hnew|].
    apply instantiate_never_raises; auto. }
  exact (proj2 (unbounded_entry_stays 0 "lr" false
                  [ (Cyclical_cls LinearScheduler_cls, 0%nat, None) ] example_concat_world
                  [ {[ "lr" := 0.1%R ]} ] 0 20 (Cyclical_cls LinearScheduler_cls) 0
                  example_linear_kwds (instantiate LinearScheduler_cls 0 "lr" 1 0 4 1 false)
                  Hne Hready eq_refl eq_refl eq_refl Hnew)).
Defined.

(** *** A single entry *)

Lemma serving_single (cls : scheduler_cls) (a : nat) (d : Z) (n : nat) :
  serving [ (cls, a, Some d) ] n =
    (0%nat, Z.to_nat (Z.of_nat n mod (Z.max d 0 + 1))).
Proof.
  induction n as [|n IH].
  - cbn [serving]. rewrite Z.mod_0_l by lia. reflexivity.
  - cbn [serving]. rewrite IH. unfold serving_step. cbn [fst snd lookup list_lookup].
    pose proof (Z.mod_pos_bound (Z.of_nat n) (Z.max d 0 + 1) ltac:(lia)) as Hr.
    rewrite Nat2Z.inj_succ, <- Z.add_1_r, mod_succ by lia.
    rewrite Z2Nat.id by lia.
    destruct (Z.ltb_spec (Z.of_nat n mod (Z.max d 0 + 1)) d) as [Hlt|Hge];
      destruct (Z.ltb_spec (Z.of_nat n mod (Z.max d 0 + 1) + 1) (Z.max d 0 + 1));
      try lia.
    + f_equal. lia.
    + reflexivity.
Qed.

(** X10: a [ConcatScheduler] with a single entry of duration [d]
    restarts its schedule every [max d 0 + 1] calls: call number [n] goes
    to a sub-scheduler constructed anew [n mod (max d 0 + 1)] calls
    earlier. *)
Theorem single_entry_restarts (o : nat) (name : string) (h : bool)
    (cls : scheduler_cls) (a : nat) (d : Z) (kwds : gmap string pyval) (X : scheduler)
    (w : world) (groups : list (gmap string R)) (n : nat) :
  dicts w !! a = Some kwds ->
  scheduler_new cls (shared_kwds (ParamScheduler_init o name h) ∪ kwds) = Return X ->
  never_raises X ->
  optimizers w !! o = Some groups ->
  exists sub v w',
    run ConcatScheduler_call (S n) (ConcatScheduler_init o name [ (cls, a, Some d) ] h, w) =
      (Return tt,
       (mk_ConcatScheduler (ParamScheduler_init o name h) [ (cls, a, Some d) ] 0
          (Some (d - Z.of_nat n mod (Z.max d 0 + 1))%Z) (Some sub), w')) /\
    sched_iter (S (Z.to_nat (Z.of_nat n mod (Z.max d 0 + 1)))) X = Return sub /\
    sched_value (Z.to_nat (Z.of_nat n mod (Z.max d 0 + 1))) X = Return v /\
    holds_value w' o name v.
Proof.
  intros Hk Hnew Hnr Hg.
  assert (Hne : [ (cls, a, Some d) ] <> []) by discriminate.
  assert (Hready : entries_ready (ParamScheduler_init o name h) [ (cls, a, Some d) ] w).
  { intros idx cls' a' duration' He.
    destruct idx as [|idx]; cbn in He; [|discriminate]. injection He as <- <- <-.
    exists kwds, X. auto. }
  destruct (concat_run_serving o name h [ (cls, a, Some d) ] w groups n Hne Hready Hg)
    as (cls' & a' & duration' & kwds' & X' & sub & v & w' &
        He' & Hk' & Hnew' & Hrun & Hsub & Hval & Hhold & _).
  rewrite serving_single in *. cbn [fst snd lookup list_lookup] in *.
  injection He' as <- <- <-.
  rewrite Hk in Hk'. injection Hk' as <-.
  rewrite Hnew in Hnew'. injection Hnew' as <-.
  pose proof (Z.mod_pos_bound (Z.of_nat n) (Z.max d 0 + 1) ltac:(lia)) as Hr.
  exists sub, v, w'. split; [|auto].
  etransitivity; [exact Hrun|]. cbn [countdown_after length].
  rewrite Z2Nat.id by lia. reflexivity.
Qed.

Lemma single_entry_restarts_witness :
  exists sub v w',
    run ConcatScheduler_call 8
        (ConcatScheduler_init 0 "lr"
           [ (Cyclical_cls LinearScheduler_cls, 0%nat, Some 2%Z) ] false,
         example_concat_world) =
      (Return tt,
       (mk_ConcatScheduler (ParamScheduler_init 0 "lr" false)
          [ (Cyclical_cls LinearScheduler_cls, 0%nat, Some 2%Z) ] 0 (Some 1%Z) (Some sub),
        w')) /\
    sched_iter 2 (instantiate LinearScheduler_cls 0 "lr" 1 0 4 1 false) = Return sub /\
    sched_value 1 (instantiate LinearScheduler_cls 0 "lr" 1 0 4 1 false) = Return v /\
    holds_value w' 0 "lr" v.
Proof.
  assert (H4 : (0 < 4)%Q) by reflexivity.
  assert (H1 : (1 <= 1)%Q) by discriminate.
  assert (Hnew : scheduler_new (Cyclical_cls LinearScheduler_cls)
                   (shared_kwds (ParamScheduler_init 0 "lr" false) ∪ example_linear_kwds) =
                 Return (instantiate LinearScheduler_cls 0 "lr" 1 0 4 1 false))
    by (vm_compute; reflexivity).
  exact (single_entry_restarts 0 "lr" false (Cyclical_cls LinearScheduler_cls) 0 2
           example_linear_kwds (instantiate LinearScheduler_cls 0 "lr" 1 0 4 1 false)
           example_concat_world [ {[ "lr" := 0.1%R ]} ] 7 eq_refl Hnew
           (instantiate_never_raises LinearScheduler_cls 0 "lr" 1 0 4 1 false eq_refl H4 H1)
           eq_refl).
Defined.

(** ** Calls that raise *)

(** *** A switch that cannot construct its scheduler *)

Lemma scheduler_new_TypeError (cls : scheduler_cls) (kwds : gmap string pyval) (e : exn) :
  scheduler_new cls kwds = Raise e -> e = TypeError.
Proof.
  destruct cls as [|k]; cbn [scheduler_new];
    unfold ParamScheduler_new, CyclicalScheduler_new, kw_required;
    (destruct (bool_decide _); cbn [obind]; [|congruence]);
    repeat (match goal with
            | |- context [match ?x with Some _ => _ | None => _ end] =>
                destruct x as [[]|]; cbn [obind as_optimizer as_str as_bool as_num
                                            from_option Datatypes.id]; try congruence
            end);
    repeat (match goal with
            | |- context [kwds !! ?key] =>
                destruct (kwds !! key) as [[]|]; cbn; try congruence
            end).
Qed.

Lemma CyclicalScheduler_new_needs (kwds : gmap string pyval) (c : CyclicalScheduler) :
  CyclicalScheduler_new kwds = Return c ->
  dom kwds ⊆ CyclicalScheduler_params /\
  is_Some (kwds !! "start_value") /\ is_Some (kwds !! "end_value") /\
  is_Some (kwds !! "cycle_size").
Proof.
  unfold CyclicalScheduler_new, kw_required.
  destruct (bool_decide_reflect (dom kwds ⊆ CyclicalScheduler_params)) as [Hd|Hd];
    [|discriminate].
  destruct (kwds !! "optimizer"); cbn [obind]; [|discriminate].
  destruct (as_optimizer _); cbn [obind]; [|discriminate].
  destruct (kwds !! "param_name"); cbn [obind]; [|discriminate].
  destruct (as_str _); cbn [obind]; [|discriminate].
  destruct (kwds !! "start_value"); cbn [obind]; [|discriminate].
  destruct (as_num _); cbn [obind]; [|discriminate].
  destruct (kwds !! "end_value"); cbn [obind]; [|discriminate].
  destruct (as_num _); cbn [obind]; [|discriminate].
  destruct (kwds !! "cycle_size"); cbn [obind]; [|discriminate].
  intros _. repeat split; eauto.
Qed.

Lemma switch_cannot_construct (p : ParamScheduler) (k : cyclical_cls)
    (d : gmap string pyval) (key : string) :
  key ∈ ["start_value"; "end_value"; "cycle_size"] /\ d !! key = None \/
  is_Some (d !! key) /\ key ∉ CyclicalScheduler_params ->
  scheduler_new (Cyclical_cls k) (shared_kwds p ∪ d) = Raise TypeError.
Proof.
  intros Hkey.
  destruct (scheduler_new (Cyclical_cls k) (shared_kwds p ∪ d)) as [sub|e] eqn:Hnew;
    [|rewrite (scheduler_new_TypeError _ _ _ Hnew); reflexivity].
  exfalso. cbn [scheduler_new] in Hnew.
  destruct (CyclicalScheduler_new (shared_kwds p ∪ d)) as [c|] eqn:Hc; [|discriminate].
  destruct (CyclicalScheduler_new_needs _ _ Hc) as (Hd & Hs & He & Hz).
  destruct (lookup_shared_kwds p d) as (_ & _ & _ & Hother).
  destruct Hkey as [[Hin Hnone]|[Hsome Hout]].
  - rewrite !Hother in Hs, He, Hz by discriminate.
    rewrite !elem_of_cons in Hin.
    destruct Hin as [->|[->|[->|Hin]]];
      [rewrite Hnone in Hs; destruct Hs; discriminate
      |rewrite Hnone in He; destruct He; discriminate
      |rewrite Hnone in Hz; destruct Hz; discriminate
      |inversion Hin].
  - apply Hout, Hd, elem_of_dom. destruct Hsome as [x Hx].
    exists (default x (shared_kwds p !! key)).
    rewrite lookup_union. rewrite Hx.
    destruct (shared_kwds p !! key); reflexivity.
Qed.

(** X11: a switch to an entry of a cyclical class whose dictionary
    lacks [start_value], [end_value] or [cycle_size], or has a key that is
    no argument of the class, raises [TypeError].  The countdown then
    already holds the duration of that entry, while the index and the
    active sub-scheduler are as before and no parameter group is written;
    so a later call does not try the switch again before that duration
    has run out: it goes to the sub-scheduler that was active. *)
Theorem failed_switch_waits (self : ConcatScheduler) (w : world) (c : Z) (k : cyclical_cls)
    (a : nat) (duration : option Z) (d : gmap string pyval) (key : string) :
  _next_scheduler_switch self = Some c -> (c <= 0)%Z ->
  _schedulers_list self !! _schedulers_index self = Some (Cyclical_cls k, a, duration) ->
  dicts w !! a = Some d ->
  key ∈ ["start_value"; "end_value"; "cycle_size"] /\ d !! key = None \/
  is_Some (d !! key) /\ key ∉ CyclicalScheduler_params ->
  exists w',
    ConcatScheduler_call (self, w) =
      (Raise TypeError,
       (mk_ConcatScheduler (concat_base self) (_schedulers_list self)
          (_schedulers_index self) duration (_scheduler self), w')) /\
    optimizers w' = optimizers w /\ param_history w' = param_history w /\
    (forall b, (b < length (dicts w))%nat -> dicts w' !! b = dicts w !! b) /\
    forall d', duration = Some d' -> (1 <= d')%Z ->
      ConcatScheduler_call
        (mk_ConcatScheduler (concat_base self) (_schedulers_list self)
           (_schedulers_index self) duration (_scheduler self), w') =
      delegate
        (mk_ConcatScheduler (concat_base self) (_schedulers_list self)
           (_schedulers_index self) (Some (d' - 1)%Z) (_scheduler self), w').
Proof.
  intros Hc Hle He Hd Hkey.
  exists (set_dicts (fun ds => ds ++ [shared_kwds (concat_base self) ∪ d]) w).
  split; [|split; [reflexivity|split; [reflexivity|split]]].
  - rewrite ConcatScheduler_call_unfold, Hc.
    destruct (Z.ltb_spec (c - 1) 0) as [_|Hge]; [|lia].
    rewrite next_scheduler_unfold. cbn [_schedulers_list _schedulers_index
      set_next_scheduler_switch concat_base _scheduler].
    rewrite He, Hd. cbn zeta.
    rewrite (switch_cannot_construct (concat_base self) k d key Hkey). reflexivity.
  - intros b Hb. cbn [set_dicts dicts]. apply lookup_app_l. exact Hb.
  - intros d' -> Hd'. rewrite ConcatScheduler_call_unfold.
    cbn [_next_scheduler_switch].
    destruct (Z.ltb_spec (d' - 1) 0) as [Hlt|_]; [lia|]. reflexivity.
Qed.

Lemma failed_switch_waits_witness :
  exists w',
    ConcatScheduler_call
      (ConcatScheduler_init 0 "lr" [ (Cyclical_cls LinearScheduler_cls, 0%nat, Some 3%Z) ] false,
       mk_world {[ 0%nat := [ {[ "lr" := 0.1%R ]} ] ]}
         [ {[ "start_value" := VNum 1; "end_value" := VNum 0 ]} ] None) =
      (Raise TypeError,
       (mk_ConcatScheduler (ParamScheduler_init 0 "lr" false)
          [ (Cyclical_cls LinearScheduler_cls, 0%nat, Some 3%Z) ] 0 (Some 3%Z) None, w')) /\
    optimizers w' = {[ 0%nat := [ {[ "lr" := 0.1%R ]} ] ]} /\
    param_history w' = None.
Proof.
  destruct (failed_switch_waits
              (ConcatScheduler_init 0 "lr"
                 [ (Cyclical_cls LinearScheduler_cls, 0%nat, Some 3%Z) ] false)
              (mk_world {[ 0%nat := [ {[ "lr" := 0.1%R ]} ] ]}
                 [ {[ "start_value" := VNum 1; "end_value" := VNum 0 ]} ] None)
              0 LinearScheduler_cls 0 (Some 3%Z)
              {[ "start_value" := VNum 1; "end_value" := VNum 0 ]} "cycle_size"
              eq_refl ltac:(lia) eq_refl eq_refl)
    as (w' & Hcall & Ho & Hh & _).
  - left. split; [set_solver|reflexivity].
  - exists w'. split; [exact Hcall|]. split; assumption.
Defined.

(** *** A cycle of size 0 *)

Lemma get_param_zero (k : cyclical_cls) (c : CyclicalScheduler) :
  has_waveform k = true -> (cycle_size c == 0)%Q ->
  get_param (Cyclical_obj k c) = Raise ZeroDivisionError.
Proof.
  intros Hk Hz. apply Qeq_bool_iff in Hz.
  destruct k; try discriminate; cbn [get_param];
    unfold LinearScheduler_get_param, CosineAnnealingScheduler_get_param,
      CosineScheduler_get_param, cycle_progress, py_truediv;
    rewrite Hz; reflexivity.
Qed.

Lemma run_raises {S} (m : Py S unit) (s s' : S) (e : exn) (n : nat) :
  m s = (Raise e, s') -> run m (Datatypes.S n) s = (Raise e, s').
Proof.
  intros Hm. induction n as [|n IH].
  - rewrite run_S. exact Hm.
  - rewrite run_S, IH. reflexivity.
Qed.

(** X12: with [cycle_size] equal to 0 every call of a scheduler with a
    waveform raises [ZeroDivisionError], in the modulo of the cycle test
    or in the division of [get_param], and leaves the scheduler and the
    store as they were. *)
Theorem zero_cycle_size_raises (k : cyclical_cls) (c : CyclicalScheduler) (w : world)
    (n : nat) :
  has_waveform k = true -> (cycle_size c == 0)%Q ->
  scheduler_call (Cyclical_obj k c, w) = (Raise ZeroDivisionError, (Cyclical_obj k c, w)) /\
  run scheduler_call (S n) (Cyclical_obj k c, w) =
    (Raise ZeroDivisionError, (Cyclical_obj k c, w)).
Proof.
  intros Hk Hz.
  assert (Hcall : scheduler_call (Cyclical_obj k c, w) =
                  (Raise ZeroDivisionError, (Cyclical_obj k c, w))).
  { pose proof (scheduler_call_raises (Cyclical_obj k c) ZeroDivisionError w) as H.
    unfold sched_step in H. cbn [before_base] in H. unfold cycle_boundary in *.
    destruct (Z.eqb (event_index (base c)) 0).
    - cbn [obind] in H. rewrite (get_param_zero k c Hk Hz) in H. apply H. reflexivity.
    - unfold py_mod in H. apply Qeq_bool_iff in Hz. rewrite Hz in H. cbn [obind] in H.
      apply H. reflexivity. }
  split; [exact Hcall|]. apply run_raises, Hcall.
Qed.

Lemma zero_cycle_size_raises_witness :
  run scheduler_call 5 (instantiate CosineScheduler_cls 0 "lr" 1 0 0 1 true, example_world) =
    (Raise ZeroDivisionError,
     (instantiate CosineScheduler_cls 0 "lr" 1 0 0 1 true, example_world)).
Proof.
  assert (H0 : (0 == 0)%Q) by reflexivity.
  exact (proj2 (zero_cycle_size_raises CosineScheduler_cls
                  (CyclicalScheduler_init 0 "lr" 1 0 0 1 true) example_world 4 eq_refl H0)).
Defined.

(** *** A multiplier of 0 *)




(** *** No entries *)

(** X14: a [ConcatScheduler] over an empty list raises [IndexError] at
    its first call, when [_next_scheduler] takes the entry at index 0;
    only the countdown has changed then, to -1, and the store is as it
    was. *)
Theorem empty_list_raises (o : nat) (name : string) (h : bool) (w : world) (n : nat) :
  run ConcatScheduler_call (S n) (ConcatScheduler_init o name [] h, w) =
    (Raise IndexError,
     (mk_ConcatScheduler (ParamScheduler_init o name h) [] 0 (Some (-1)%Z) None, w)).
Proof.
  apply run_raises. rewrite ConcatScheduler_call_unfold. cbn [ConcatScheduler_init
    _next_scheduler_switch]. rewrite next_scheduler_unfold. reflexivity.
Qed.

(** *** The classes without a waveform *)

Lemma scheduler_new_fresh (cls : scheduler_cls) (kwds : gmap string pyval) (s : scheduler) :
  scheduler_new cls kwds = Return s -> event_index (self_base s) = 0%Z.
Proof.
  destruct cls as [|k]; cbn [scheduler_new];
    unfold ParamScheduler_new, CyclicalScheduler_new, kw_required;
    (destruct (bool_decide _); cbn [obind]; [|discriminate]);
    repeat (match goal with
            | |- context [match ?x with Some _ => _ | None => _ end] =>
                destruct x as [[]|]; cbn [obind as_optimizer as_str as_bool as_num
                                            from_option Datatypes.id]; try discriminate
            end);
    repeat (match goal with
            | |- context [kwds !! ?key] =>
                destruct (kwds !! key) as [[]|]; cbn; try discriminate
            end);
    intros [= <-]; reflexivity.
Qed.

(** X15: an instance of [ParamScheduler] or of [CyclicalScheduler]
    itself, the two classes that do not define [get_param], raises
    [NotImplementedError] at every call from its construction on, and
    neither the object nor the store changes. *)
Theorem abstract_classes_raise (cls : scheduler_cls) (kwds : gmap string pyval)
    (s : scheduler) (w : world) (n : nat) :
  cls = ParamScheduler_cls \/ cls = Cyclical_cls CyclicalScheduler_cls ->
  scheduler_new cls kwds = Return s ->
  run scheduler_call (S n) (s, w) = (Raise NotImplementedError, (s, w)).
Proof.
  intros Hcls Hnew. apply run_raises.
  pose proof (scheduler_new_fresh cls kwds s Hnew) as Hfresh.
  pose proof (scheduler_call_raises s NotImplementedError w) as H.
  destruct Hcls as [->| ->]; cbn [scheduler_new] in Hnew.
  - destruct (ParamScheduler_new kwds) as [p|]; [|discriminate].
    injection Hnew as <-. apply H. reflexivity.
  - destruct (CyclicalScheduler_new kwds) as [c|]; [|discriminate].
    injection Hnew as <-. cbn [self_base] in Hfresh.
    unfold sched_step in H. cbn [before_base] in H. unfold cycle_boundary in H.
    rewrite Hfresh in H. cbn [Z.eqb obind get_param] in H. apply H. reflexivity.
Qed.

Lemma abstract_classes_raise_witness :
  run scheduler_call 3
      (ParamScheduler_obj (ParamScheduler_init 0 "lr" true), example_world) =
    (Raise NotImplementedError,
     (ParamScheduler_obj (ParamScheduler_init 0 "lr" true), example_world)).
Proof.
  apply (abstract_classes_raise ParamScheduler_cls
           {[ "optimizer" := VOptimizer 0; "param_name" := VStr "lr";
              "save_history" := VBool true ]}
           (ParamScheduler_obj (ParamScheduler_init 0 "lr" true)) example_world 2).
  - left. reflexivity.
  - vm_compute. reflexivity.
Defined.
